(** * libfancontrol: the fan-curve evaluator, the adaptive scheduler and
      the control loop of [source/fancontrol.c]

    Modelling conventions.
    - A value of type [float] is a rational ([Q]); infinities and NaN
      are not represented.  In the curve evaluator every conversion and
      every arithmetic operation is followed by [round32], the rounding
      to binary32 (to nearest, ties to even, with subnormals; the
      exponent is not bounded above 2^127, so nothing overflows to
      infinity).  The scheduler and the loop only subtract, take absolute
      values and compare; there [fabs] is [Qabs] and the comparisons are
      the rational ones.  Values that the code merely copies are compared
      with [=], computed ones with [==] or [<=].
    - [u32] and [u64] objects are integers ([Z]) with the wrap-around
      written out ([u32], [u64]).
    - The file-scope variables of [fancontrol.c] are the fields of
      [Globals]; every function takes the globals it reads and returns the
      globals it leaves behind.
    - Calls to the collaborators (sensor, fan device, sleep, log, file
      system) are recorded as events, newest last. *)

From Stdlib Require Import ZArith QArith Qabs Qround Qpower.
From Stdlib Require Import Bool List Ascii String Lia Lqa.
From Stdlib Require Import Sorted.
Import ListNotations.

Local Open Scope string_scope.
Local Open Scope list_scope.
Local Open Scope Z_scope.
Local Open Scope Q_scope.

(** ** Machine integers *)

Definition u32 (x : Z) : Z := (x mod 2 ^ 32)%Z.
Definition u64 (x : Z) : Z := (x mod 2 ^ 64)%Z.

(** ** Comparisons on [float] values, as booleans *)

Definition fle (a b : Q) : bool := Qle_bool a b.
Definition flt (a b : Q) : bool := negb (Qle_bool b a).
Definition fge (a b : Q) : bool := fle b a.
Definition fgt (a b : Q) : bool := flt b a.

(** ** Rounding to binary32 *)

Definition pow2 (e : Z) : Q := Qpower 2 e.

(** The nearest integer, ties to the even one. *)
Definition rne (x : Q) : Z :=
  let f := Qfloor x in
  match Qcompare (x - inject_Z f) (1 # 2) with
  | Lt => f
  | Gt => (f + 1)%Z
  | Eq => if Z.even f then f else (f + 1)%Z
  end.

(** The exponent of the unit in the last place of a magnitude [a]: the
    least [e], from [e] on, with [a < 2^(e + 24)]. *)
Fixpoint find_exp (a : Q) (e : Z) (fuel : nat) : Z :=
  match fuel with
  | O => e
  | S fuel' => if flt a (pow2 (e + 24)) then e else find_exp a (e + 1) fuel'
  end.

(** The smallest subnormal is 2^-149; the largest unit in the last place
    of a finite number is 2^104. *)
Definition EXP_MIN : Z := -149.
Definition EXP_STEPS : nat := 253.

Definition round_abs (a : Q) : Q :=
  let e := find_exp a EXP_MIN EXP_STEPS in
  inject_Z (rne (a / pow2 e)) * pow2 e.

(** The binary32 number nearest to [x], in lowest terms. *)
Definition round32 (x : Q) : Q :=
  Qred (if flt x 0 then - round_abs (Qabs x) else round_abs (Qabs x)).

(** The value of an [int] expression: 32 bits, two's complement. *)
Definition int32 (z : Z) : Z := ((z + 2 ^ 31) mod 2 ^ 32 - 2 ^ 31)%Z.

(** ** The curve table *)

(** Modelled from the spec: [TemperaturePoint] is declared in
    [fancontrol.h], which is not part of the sources at hand; the spec
    gives a signed integer temperature and a fractional duty cycle, and
    the designated initialisers of [defaultTable] name the two fields. *)
Record TemperaturePoint : Set := mkPoint {
  temperature_c : Z;
  fanLevel_f : Q
}.

Definition Table := list TemperaturePoint.

(** Modelled from the spec: [TABLE_SIZE / sizeof(TemperaturePoint)], from
    the same header; a stored curve has exactly five control points
    (the size of [defaultTable]). *)
Definition TABLE_POINTS : nat := 5.

(** The duty cycles are the [float] values of the literals. *)
Definition defaultTable : Table :=
  [ mkPoint 20 (round32 (1 # 10));
    mkPoint 40 (round32 (5 # 10));
    mkPoint 50 (round32 (6 # 10));
    mkPoint 60 (round32 (7 # 10));
    mkPoint 100 1 ].

(** [fanControllerTable + i]: the [i]-th point of the table.  Every table
    the program allocates has [sizeof(defaultTable)] bytes, so [i < 5] is
    always in range; the default is never reached on such a table. *)
Definition point_at (tbl : Table) (i : nat) : TemperaturePoint :=
  nth i tbl (mkPoint 0 0).

(** The temperature of a point, converted from [int] to [float]; the
    conversion rounds above 2^24. *)
Definition temp_of (p : TemperaturePoint) : Q :=
  round32 (inject_Z (temperature_c p)).

(** ** Constants *)

Definition EMERGENCY_TEMP_THRESHOLD : Q := 80.
Definition CRITICAL_TEMP_THRESHOLD : Q := 90.
Definition TEMP_CHANGE_THRESHOLD : Q := 2.
Definition FAN_CHANGE_THRESHOLD : Q := 5 # 100.      (* the literal 0.05f *)
Definition FAN_UPDATE_THRESHOLD : Q := 2 # 100.      (* the literal 0.02f *)
Definition FAN_SLEEP_MINIMUM : Q := 1 # 10.          (* the literal 0.1f *)
Definition STABLE_READINGS_FOR_SLOWDOWN : Z := 10.

Definition MIN_SLEEP_INTERVAL : Z := 1000000000.
Definition NORMAL_SLEEP_INTERVAL : Z := 10000000000.
Definition LONG_SLEEP_INTERVAL : Z := 30000000000.
Definition SLEEP_MODE_INTERVAL : Z := 300000000000.

(** ** File-scope state *)

Record Globals : Type := mkGlobals {
  fanControllerTable : option Table;     (* NULL or the loaded table *)
  fanControllerThreadExit : bool;
  systemInSleepMode : bool;
  thermalEmergency : bool;
  currentSleepTime : Z;
  lastTemperature : Q;
  lastFanLevel : Q;
  stableReadings : Z;
  checkCounter : Z                        (* static in CheckSystemSleepState *)
}.

Definition set_systemInSleepMode (b : bool) (g : Globals) : Globals :=
  mkGlobals (fanControllerTable g) (fanControllerThreadExit g) b
            (thermalEmergency g) (currentSleepTime g) (lastTemperature g)
            (lastFanLevel g) (stableReadings g) (checkCounter g).

Definition set_thermalEmergency (b : bool) (g : Globals) : Globals :=
  mkGlobals (fanControllerTable g) (fanControllerThreadExit g)
            (systemInSleepMode g) b (currentSleepTime g) (lastTemperature g)
            (lastFanLevel g) (stableReadings g) (checkCounter g).

Definition set_currentSleepTime (n : Z) (g : Globals) : Globals :=
  mkGlobals (fanControllerTable g) (fanControllerThreadExit g)
            (systemInSleepMode g) (thermalEmergency g) n (lastTemperature g)
            (lastFanLevel g) (stableReadings g) (checkCounter g).

Definition set_last (t f : Q) (g : Globals) : Globals :=
  mkGlobals (fanControllerTable g) (fanControllerThreadExit g)
            (systemInSleepMode g) (thermalEmergency g) (currentSleepTime g)
            t f (stableReadings g) (checkCounter g).

Definition set_stableReadings (n : Z) (g : Globals) : Globals :=
  mkGlobals (fanControllerTable g) (fanControllerThreadExit g)
            (systemInSleepMode g) (thermalEmergency g) (currentSleepTime g)
            (lastTemperature g) (lastFanLevel g) n (checkCounter g).

Definition set_checkCounter (n : Z) (g : Globals) : Globals :=
  mkGlobals (fanControllerTable g) (fanControllerThreadExit g)
            (systemInSleepMode g) (thermalEmergency g) (currentSleepTime g)
            (lastTemperature g) (lastFanLevel g) (stableReadings g) n.

(** The values [InitFanController] stores before it creates the thread. *)
Definition InitFanController_state (table : Table) : Globals :=
  mkGlobals (Some table) false false false LONG_SLEEP_INTERVAL 0 0 0%Z 0%Z.

(** ** CalculateFanLevel *)

(** The value [CalculateFanLevel] returns at or below the first point:
    [m = fanLevel / temperature], then [m * temperatureC_f], each rounded
    to [float]. *)
Definition ramp (first : TemperaturePoint) (temperatureC_f : Q) : Q :=
  let m := round32 (fanLevel_f first / temp_of first) in
  round32 (m * temperatureC_f).

(** The body of the [if] inside the [for] loop of [CalculateFanLevel]:
    the value returned once the interval [current, next] is chosen.  The
    temperatures are subtracted as [int] and the difference is converted
    to [float]; every [float] operation rounds. *)
Definition interpolate (current next : TemperaturePoint) (temperatureC_f : Q) : Q :=
  let tempDiff :=
    round32 (inject_Z (int32 (temperature_c next - temperature_c current))) in
  if fle tempDiff 0 then fanLevel_f current         (* Avoid division by zero *)
  else
    let m := round32 (round32 (fanLevel_f next - fanLevel_f current) / tempDiff) in
    let q := round32 (fanLevel_f current - round32 (m * temp_of current)) in
    round32 (round32 (m * temperatureC_f) + q).

(** The [for] loop of [CalculateFanLevel]: [i] is the loop index and
    [todo] the number of iterations left before [i] reaches
    [TABLE_SIZE/sizeof(TemperaturePoint) - 1]. *)
Fixpoint scan_table (tbl : Table) (temperatureC_f : Q) (i todo : nat) : Q :=
  match todo with
  | O => 0                                             (* Fallback *)
  | S todo' =>
      let current := point_at tbl i in
      let next := point_at tbl (S i) in
      if fge temperatureC_f (temp_of current)
         && fle temperatureC_f (temp_of next)
      then interpolate current next temperatureC_f
      else scan_table tbl temperatureC_f (S i) todo'
  end.

Definition CalculateFanLevel (table : option Table) (temperatureC_f : Q) : Q :=
  match table with
  | None => 0
  | Some tbl =>
      if fle temperatureC_f 0 then 0
      else if fle temperatureC_f (temp_of (point_at tbl 0)) then
        ramp (point_at tbl 0) temperatureC_f
      else if fge temperatureC_f (temp_of (point_at tbl 4)) then
        fanLevel_f (point_at tbl 4)
      else scan_table tbl temperatureC_f 0 (TABLE_POINTS - 1)
  end.

(** ** CalculateAdaptiveSleepTime *)

Definition tempChange_of (g : Globals) (currentTemp : Q) : Q :=
  Qabs (currentTemp - lastTemperature g).

Definition fanChange_of (g : Globals) (fanLevel : Q) : Q :=
  Qabs (fanLevel - lastFanLevel g).

(** The test of the stability [if]. *)
Definition reading_stable (g : Globals) (currentTemp fanLevel : Q) : bool :=
  flt (tempChange_of g currentTemp) TEMP_CHANGE_THRESHOLD
  && flt (fanChange_of g fanLevel) FAN_CHANGE_THRESHOLD.

Definition CalculateAdaptiveSleepTime
    (g : Globals) (currentTemp fanLevel : Q) : Globals * Z :=
  if fge currentTemp CRITICAL_TEMP_THRESHOLD then
    (set_thermalEmergency true g, MIN_SLEEP_INTERVAL)
  else if fge currentTemp EMERGENCY_TEMP_THRESHOLD then
    (set_thermalEmergency true g, u64 (MIN_SLEEP_INTERVAL * 2))
  else
    let g := set_thermalEmergency false g in
    if systemInSleepMode g then (g, SLEEP_MODE_INTERVAL)
    else
      let tempChange := tempChange_of g currentTemp in
      let g :=
        if reading_stable g currentTemp fanLevel
        then set_stableReadings (u32 (stableReadings g + 1)) g
        else set_stableReadings 0%Z g in
      if (STABLE_READINGS_FOR_SLOWDOWN <=? stableReadings g)%Z then
        (g, LONG_SLEEP_INTERVAL)
      else if flt tempChange (TEMP_CHANGE_THRESHOLD * 2) then
        (g, NORMAL_SLEEP_INTERVAL)
      else
        (g, (NORMAL_SLEEP_INTERVAL / 2)%Z).

(** ** The control loop *)

(** What the loop asks of its collaborators, in program order. *)
Inductive Event : Type :=
| EvLog (msg : string)                          (* WriteLog(msg) *)
| EvLogStatus (temp fan : Q) (asleep : bool)    (* the snprintf'ed status line *)
| EvSleep (ns : Z)                              (* svcSleepThread(ns) *)
| EvSetSpeed (level : Q).       (* fanControllerSetRotationSpeedLevel(&fc, level) *)

Definition is_device_write (e : Event) : bool :=
  match e with EvSetSpeed _ => true | _ => false end.

Definition device_writes (tr : list Event) : list Event :=
  filter is_device_write tr.

Definition sleeps (tr : list Event) : list Z :=
  flat_map (fun e => match e with EvSleep n => [n] | _ => [] end) tr.

(** The stub of the power-state probe: it counts its calls and reports
    the active state. *)
Definition CheckSystemSleepState (g : Globals) : Globals * bool :=
  (set_checkCounter (u32 (checkCounter g + 1)) g, false).

(** The three-way [if] that sets [shouldUpdateFan]. *)
Definition shouldUpdateFan (g : Globals) (fanLevelSet_f : Q) : bool :=
  if thermalEmergency g then true
  else if fgt (Qabs (fanLevelSet_f - lastFanLevel g)) FAN_UPDATE_THRESHOLD then true
  else if systemInSleepMode g && fgt fanLevelSet_f FAN_SLEEP_MINIMUM then true
  else false.

(** One answer of each collaborator for one iteration: the sensor reading
    ([None] when [Tmp451GetSocTemp] fails) and whether a device write, if
    one is made, succeeds. *)
Record TickInput : Type := mkTick {
  sensor : option Q;
  device_ok : bool
}.

(** The body of the [while] loop after the assignment to
    [systemInSleepMode]: from the sensor read to the final sleep. *)
Definition ControlTick (inp : TickInput) (g : Globals) : Globals * list Event :=
  match sensor inp with
  | None =>
      (g, [EvLog "ERROR: Failed to get temperature"; EvSleep NORMAL_SLEEP_INTERVAL])
  | Some temperatureC_f =>
      let fanLevelSet_f := CalculateFanLevel (fanControllerTable g) temperatureC_f in
      let push :=
        if shouldUpdateFan g fanLevelSet_f then
          EvSetSpeed fanLevelSet_f ::
          (if device_ok inp
           then [EvLogStatus temperatureC_f fanLevelSet_f (systemInSleepMode g)]
           else [EvLog "ERROR: Failed to set fan speed"])
        else [] in
      let (g1, interval) := CalculateAdaptiveSleepTime g temperatureC_f fanLevelSet_f in
      let g2 := set_currentSleepTime interval g1 in
      let g3 := set_last temperatureC_f fanLevelSet_f g2 in
      (g3, push ++ [EvSleep interval])
  end.

(** One full iteration of the [while] loop. *)
Definition LoopIteration (inp : TickInput) (g : Globals) : Globals * list Event :=
  let (g1, asleep) := CheckSystemSleepState g in
  ControlTick inp (set_systemInSleepMode asleep g1).

(** The loop over a finite run of iterations (the exit flag is written by
    another thread; a run is the iterations made before it is seen). *)
Fixpoint RunLoop (inps : list TickInput) (g : Globals) : Globals * list Event :=
  match inps with
  | [] => (g, [])
  | inp :: rest =>
      let (g1, tr1) := LoopIteration inp g in
      let (g2, tr2) := RunLoop rest g1 in
      (g2, tr1 ++ tr2)
  end.

(** The scheduler as the loop uses it: a call of
    [CalculateAdaptiveSleepTime] followed by the two stores to
    [lastTemperature] and [lastFanLevel]. *)
Definition Reading : Type := (Q * Q)%type.

Definition sched_step (g : Globals) (r : Reading) : Globals * Z :=
  let (g1, interval) := CalculateAdaptiveSleepTime g (fst r) (snd r) in
  (set_last (fst r) (snd r) (set_currentSleepTime interval g1), interval).

(** The intervals returned along a sequence of readings. *)
Fixpoint sched_run (g : Globals) (rs : list Reading) : Globals * list Z :=
  match rs with
  | [] => (g, [])
  | r :: rest =>
      let (g1, interval) := sched_step g r in
      let (g2, ivs) := sched_run g1 rest in
      (g2, interval :: ivs)
  end.

(** For each reading of a sequence, whether it passed the stability test
    against its predecessor. *)
Fixpoint stable_flags (g : Globals) (rs : list Reading) : list bool :=
  match rs with
  | [] => []
  | r :: rest =>
      reading_stable g (fst r) (snd r) :: stable_flags (fst (sched_step g r)) rest
  end.

(** ** The configuration store *)

(** The part of the outside world [ReadConfigFile] and [WriteConfigFile]
    touch.  The configuration file holds whole [TemperaturePoint] records;
    [fread] of one item of [sizeof(defaultTable)] bytes yields 1 exactly
    when five of them are there. *)
Inductive IoEvent : Type :=
| IoInitLog
| IoLog (msg : string)
| IoCreateDir
| IoWriteConfig (table : option Table)     (* a call WriteConfigFile(table) *)
| IoFwrite (written : Table).               (* the fwrite inside it *)

Record World : Type := mkWorld {
  heap_ok : bool;                 (* malloc returns non-NULL *)
  dir_exists : bool;              (* access(CONFIG_DIR, F_OK) != -1 *)
  mkdir_ok : bool;                (* mkdir would succeed *)
  config_file : option Table;     (* the records of CONFIG_FILE, if it exists *)
  fopen_ok : bool;                (* fopen on a reachable path succeeds *)
  io_trace : list IoEvent
}.

Definition emit (e : IoEvent) (w : World) : World :=
  mkWorld (heap_ok w) (dir_exists w) (mkdir_ok w) (config_file w) (fopen_ok w)
          (io_trace w ++ [e]).

Definition InitLog (w : World) : World := emit IoInitLog w.
Definition WriteLog (msg : string) (w : World) : World := emit (IoLog msg) w.

Definition CreateDir (w : World) : World :=
  let w := emit IoCreateDir w in
  mkWorld (heap_ok w) (dir_exists w || mkdir_ok w) (mkdir_ok w)
          (config_file w) (fopen_ok w) (io_trace w).

Definition store_file (t : Table) (w : World) : World :=
  mkWorld (heap_ok w) (dir_exists w) (mkdir_ok w) (Some t) (fopen_ok w)
          (io_trace w).

Definition WriteConfigFile (table : option Table) (w : World) : World :=
  let w := emit (IoWriteConfig table) w in
  let tableToWrite :=
    match table with
    | Some t => Some t
    | None => if heap_ok w then Some defaultTable else None
    end in
  match tableToWrite with
  | None => w
  | Some t =>
      let w := if dir_exists w then w else CreateDir w in
      if dir_exists w && fopen_ok w
      then store_file (firstn TABLE_POINTS t) (emit (IoFwrite (firstn TABLE_POINTS t)) w)
      else w
  end.

(** [fread(buf, sizeof(defaultTable), 1, config)]: the buffer after the
    call and the number of items read. *)
Definition fread_table (buf content : Table) : Table * Z :=
  let got := firstn TABLE_POINTS content in
  (got ++ skipn (List.length got) buf,
   if (TABLE_POINTS <=? List.length content)%nat then 1%Z else 0%Z).

(** [ReadConfigFile(&table)] with a non-null out-pointer: the world it
    leaves and the value of [*table_out] ([None] for NULL). *)
Definition ReadConfigFile (w : World) : World * option Table :=
  let w := InitLog w in
  if negb (heap_ok w) then (WriteLog "Memory allocation failed" w, None)
  else
    let table := defaultTable in
    if negb (dir_exists w) then
      let w := CreateDir w in
      let w := WriteConfigFile None w in
      (WriteLog "Created missing config directory" w, Some table)
    else
      match config_file w with
      | None =>
          let w := WriteConfigFile None w in
          (WriteLog "Created missing config file" w, Some table)
      | Some content =>
          if fopen_ok w then
            let (table, bytesRead) := fread_table table content in
            if (bytesRead =? 1)%Z
            then (WriteLog "Config file loaded successfully" w, Some table)
            else (WriteLog "Config file corrupted, using defaults" w,
                  Some defaultTable)
          else (w, Some table)
      end.

(** The calls of [WriteConfigFile] recorded in a trace. *)
Definition saves (tr : list IoEvent) : list (option Table) :=
  flat_map (fun e => match e with IoWriteConfig t => [t] | _ => [] end) tr.

(** ** Well-formed curves *)

Fixpoint increasing_temps (tbl : Table) : bool :=
  match tbl with
  | p :: (q :: _) as rest =>
      (temperature_c p <? temperature_c q)%Z && increasing_temps rest
  | _ => true
  end.

Fixpoint nondecreasing_levels (tbl : Table) : bool :=
  match tbl with
  | p :: (q :: _) as rest =>
      fle (fanLevel_f p) (fanLevel_f q) && nondecreasing_levels rest
  | _ => true
  end.

Definition levels_in_range (tbl : Table) : bool :=
  forallb (fun p => fle 0 (fanLevel_f p) && fle (fanLevel_f p) 1) tbl.

(** The shape of a stored curve: five points, temperatures strictly
    increasing. *)
Definition curve_shape (tbl : Table) : bool :=
  (List.length tbl =? TABLE_POINTS)%nat && increasing_temps tbl.

(** A valid curve: the shape above, every duty cycle a fraction in
    [0, 1]. *)
Definition valid_curve (tbl : Table) : bool :=
  curve_shape tbl && levels_in_range tbl.

(** ** Concrete states and runs used below *)

(** The state right after [InitFanController] on the default curve. *)
Definition reset_state : Globals := InitFanController_state defaultTable.

(** A sensor that keeps reading 1 degree, device writes succeeding. *)
Definition steady_ticks (n : nat) : list TickInput :=
  repeat (mkTick (Some 1) true) n.

(** A state in the elevated band: 85 degrees seen on the previous tick,
    three stable readings counted so far. *)
Definition warm_state : Globals :=
  mkGlobals (Some defaultTable) false false true 2000000000%Z
            85 (CalculateFanLevel (Some defaultTable) 85) 3%Z 7%Z.

(** The relaxed-interval decisions that a sequence of stability verdicts
    produces from counter value [c]. *)
Fixpoint relaxed_flags (c : Z) (flags : list bool) : list bool :=
  match flags with
  | [] => []
  | b :: rest =>
      let c' := if b then u32 (c + 1) else 0%Z in
      (STABLE_READINGS_FOR_SLOWDOWN <=? c')%Z :: relaxed_flags c' rest
  end.

(** Nine stable readings, one jump, eleven stable readings. *)
Definition nine_one_eleven : list Reading :=
  repeat (1, 1 # 200) 9 ++ [(30, 3 # 10)] ++ repeat (30, 3 # 10) 11.

(** A configuration file cut short after two records. *)
Definition short_file_world : World :=
  mkWorld true true true (Some (firstn 2 defaultTable)) true [].

(** No configuration directory yet. *)
Definition fresh_world : World :=
  mkWorld true false true None true [].

(** A curve that lies entirely at or below 0 degrees. *)
Definition frost_table : Table :=
  [ mkPoint (-40) (round32 (1 # 10));
    mkPoint (-30) (round32 (2 # 10));
    mkPoint (-20) (round32 (3 # 10));
    mkPoint (-10) (round32 (4 # 10));
    mkPoint 0 (round32 (5 # 10)) ].

(** A configuration file with six records that are not a curve: the
    temperatures go down. *)
Definition descending_file_world : World :=
  mkWorld true true false
          (Some [ mkPoint 90 1; mkPoint 70 (1 # 2); mkPoint 50 (1 # 4);
                  mkPoint 30 (1 # 8); mkPoint 10 0; mkPoint 5 0 ])
          true [].

(** No memory left. *)
Definition exhausted_world : World :=
  mkWorld false true true (Some defaultTable) true [].

(** Whether the store can be written: the directory is there or can be
    made, and the file can be opened. *)
Definition store_writable (w : World) : bool :=
  (dir_exists w || mkdir_ok w) && fopen_ok w.

(** A state whose stability counter holds the largest [u32]. *)
Definition full_counter_state : Globals :=
  mkGlobals (Some defaultTable) false false false LONG_SLEEP_INTERVAL
            30 (3 # 10) 4294967295%Z 0%Z.

(** A state with the suspended flag set and seven stable readings
    counted. *)
Definition suspended_state : Globals :=
  mkGlobals (Some defaultTable) false true false SLEEP_MODE_INTERVAL
            30 (3 # 10) 7%Z 0%Z.

(** The state in which the sensor is read: the probe has been called
    and its answer stored. *)
Definition after_probe (g : Globals) : Globals :=
  set_systemInSleepMode (snd (CheckSystemSleepState g))
                        (fst (CheckSystemSleepState g)).

(** Iterations whose sensor read succeeds with the given temperatures
    and whose device write, if any, succeeds. *)
Definition good_ticks (ts : list Q) : list TickInput :=
  map (fun t => mkTick (Some t) true) ts.

(** Readings below the elevated threshold whose duty cycle moves by at
    most 0.02 from one reading to the next, starting from [last]. *)
Fixpoint small_steps (table : option Table) (last : Q) (ts : list Q) : bool :=
  match ts with
  | [] => true
  | t :: rest =>
      flt t EMERGENCY_TEMP_THRESHOLD
      && fle (Qabs (CalculateFanLevel table t - last)) FAN_UPDATE_THRESHOLD
      && small_steps table (CalculateFanLevel table t) rest
  end.

(** The sensor climbing one degree per iteration from 1 to 20 degrees. *)
Definition slow_climb : list Q :=
  map (fun n => inject_Z (Z.of_nat n)) (seq 1 20).

(** The intervals the loop can sleep. *)
Definition loop_intervals : list Z :=
  [ 1000000000; 2000000000; 5000000000; 10000000000; 30000000000 ]%Z.

(** ** CreateDir on a path *)

(** A C string, without its terminating NUL. *)
Definition Path : Type := list Ascii.ascii.

Definition slash : Ascii.ascii := "/"%char.

Section CreateDirOnPaths.
(** The file system is whatever [access] and [mkdir] act on; [PATH_MAX]
    comes from the system headers. *)
Variable FS : Type.
Variable access : FS -> Path -> bool.      (* access(p, F_OK) != -1 *)
Variable mkdir : FS -> Path -> FS.         (* mkdir(p, 0755) *)
Variable PATH_MAX : nat.

(** [if (access(p, F_OK) == -1) mkdir(p, 0755);] on the file system and
    the list of [mkdir] calls made so far. *)
Definition mkdir_if_missing (p : Path) (st : FS * list Path) : FS * list Path :=
  if access (fst st) p then st else (mkdir (fst st) p, snd st ++ [p]).

(** The [while] loop of [CreateDir] together with the scan of [strchr]:
    [pos] is the rest of [dir] still to be searched and [off] its offset
    in [dir]; each '/' found is [next], with [len = next - dir = off]. *)
Fixpoint CreateDir_scan (dir : Path) (off : nat) (pos : Path)
    (st : FS * list Path) : FS * list Path :=
  match pos with
  | [] => st
  | c :: rest =>
      if Ascii.eqb c slash then
        let len := off in
        let st :=
          if (0 <? len)%nat && (len <? PATH_MAX - 1)%nat
          then mkdir_if_missing (firstn len dir) st
          else st in
        CreateDir_scan dir (S off) rest st
      else CreateDir_scan dir (S off) rest st
  end.

(** [CreateDir(dir)]: the file system it leaves and the [mkdir] calls it
    makes, in order; [None] is the NULL pointer. *)
Definition CreateDirPath (fs : FS) (dir : option Path) : FS * list Path :=
  match dir with
  | None => (fs, [])
  | Some d =>
      let st := CreateDir_scan d 0 d (fs, []) in
      if (List.length d <? PATH_MAX)%nat
      then mkdir_if_missing d st
      else st
  end.
End CreateDirOnPaths.

(** A place where [dir] is cut to get a directory to create: in front of
    a '/' that is not the first character, or at the end. *)
Definition is_cut (dir : Path) (n : nat) : Prop :=
  n = List.length dir \/ ((0 < n)%nat /\ nth_error dir n = Some slash).

(** A file system in which everything there is to ask about exists. *)
Definition full_access (fs : unit) (p : Path) : bool := true.

(** A file system that is a list of directories, [mkdir] adding one. *)
Definition listed_access (fs : list Path) (p : Path) : bool :=
  existsb (fun q => if list_eq_dec Ascii.ascii_dec p q then true else false) fs.

Definition listed_mkdir (fs : list Path) (p : Path) : list Path := p :: fs.

(** A path with two '/' in it. *)
Definition sample_path : Path :=
  list_ascii_of_string "sdmc:/config/fancontrol".

(** ** Session start *)

(** The stores of [InitFanController(table)] to the file-scope
    variables, before it creates the thread: with a NULL table it logs an
    error and returns; the call counter of the probe is a function-local
    static and is not reset. *)
Definition InitFanController (table : option Table) (g : Globals) : Globals :=
  match table with
  | None => g
  | Some t =>
      mkGlobals (Some t) false false false LONG_SLEEP_INTERVAL 0 0 0%Z
                (checkCounter g)
  end.

(** ** The return statements of CalculateFanLevel *)

(** Which [return] of [CalculateFanLevel] answers, on a table that is
    not NULL. *)
Inductive Branch : Set :=
| AtOrBelowZero                 (* temperatureC_f <= 0 *)
| OnRamp                        (* at or below the first point *)
| OnClamp                       (* at or above the last point *)
| InInterval (i : nat)          (* the loop, at index i *)
| FellThrough.                  (* the fallback after the loop *)

Fixpoint scan_branch (tbl : Table) (temperatureC_f : Q) (i todo : nat) : Branch :=
  match todo with
  | O => FellThrough
  | S todo' =>
      if fge temperatureC_f (temp_of (point_at tbl i))
         && fle temperatureC_f (temp_of (point_at tbl (S i)))
      then InInterval i
      else scan_branch tbl temperatureC_f (S i) todo'
  end.

Definition branch_of (tbl : Table) (temperatureC_f : Q) : Branch :=
  if fle temperatureC_f 0 then AtOrBelowZero
  else if fle temperatureC_f (temp_of (point_at tbl 0)) then OnRamp
  else if fge temperatureC_f (temp_of (point_at tbl 4)) then OnClamp
  else scan_branch tbl temperatureC_f 0 (TABLE_POINTS - 1).

(** What each [return] returns. *)
Definition branch_value (tbl : Table) (temperatureC_f : Q) (b : Branch) : Q :=
  match b with
  | AtOrBelowZero => 0
  | OnRamp => ramp (point_at tbl 0) temperatureC_f
  | OnClamp => fanLevel_f (point_at tbl 4)
  | InInterval i =>
      interpolate (point_at tbl i) (point_at tbl (S i)) temperatureC_f
  | FellThrough => 0
  end.

(** Temperatures that the conversion to [float] leaves as they are. *)
Definition temps_in_range (tbl : Table) : bool :=
  forallb (fun p => (Z.abs (temperature_c p) <=? 2 ^ 24)%Z) tbl.

(** A valid curve with non-decreasing duty cycles and a steep interval
    from 60 to 70 degrees. *)
Definition steep_table : Table :=
  [ mkPoint 20 (round32 (1 # 10));
    mkPoint 40 (round32 (3 # 10));
    mkPoint 60 (round32 (4 # 10));
    mkPoint 70 1;
    mkPoint 100 1 ].

(** Five neighbouring temperatures above 2^24: strictly increasing as
    [int], one and the same [float]. *)
Definition crowded_table : Table :=
  [ mkPoint 134217724 (round32 (1 # 10));
    mkPoint 134217725 (round32 (2 # 10));
    mkPoint 134217726 (round32 (3 # 10));
    mkPoint 134217727 (round32 (4 # 10));
    mkPoint 134217728 (round32 (5 # 10)) ].



(** ** Reflection of the comparisons *)

Lemma fle_iff a b : fle a b = true <-> a <= b.
Proof. unfold fle. apply Qle_bool_iff. Qed.

Lemma flt_iff a b : flt a b = true <-> a < b.
Proof.
  unfold flt. rewrite negb_true_iff. split; intro H.
  - apply Qnot_le_lt. intro Hle. apply Qle_bool_iff in Hle. congruence.
  - destruct (Qle_bool b a) eqn:E; [|reflexivity].
    apply Qle_bool_iff in E. exfalso. apply (Qlt_not_le _ _ H E).
Qed.

Lemma fle_false_iff a b : fle a b = false <-> b < a.
Proof.
  rewrite <- flt_iff. unfold flt, fle.
  destruct (Qle_bool a b); simpl; split; congruence.
Qed.

Lemma flt_false_iff a b : flt a b = false <-> b <= a.
Proof.
  rewrite <- fle_iff. unfold flt, fle.
  destruct (Qle_bool b a); simpl; split; congruence.
Qed.

Lemma fge_iff a b : fge a b = true <-> b <= a.
Proof. unfold fge. apply fle_iff. Qed.

Lemma fge_false_iff a b : fge a b = false <-> a < b.
Proof. unfold fge. apply fle_false_iff. Qed.


(** Case analysis on a [float] comparison, leaving the order fact. *)
Ltac cmp_case c H :=
  lazymatch c with
  | fle ?a ?b =>
      destruct (fle a b) eqn:H;
      [apply fle_iff in H | apply fle_false_iff in H]
  | flt ?a ?b =>
      destruct (flt a b) eqn:H;
      [apply flt_iff in H | apply flt_false_iff in H]
  | fge ?a ?b =>
      destruct (fge a b) eqn:H;
      [apply fge_iff in H | apply fge_false_iff in H]
  end.

(** ** Rounding to binary32: what it keeps *)

Lemma pow2_pos e : 0 < pow2 e.
Proof. unfold pow2. apply Qpower_0_lt. reflexivity. Qed.

Lemma pow2_plus a b : pow2 (a + b) == pow2 a * pow2 b.
Proof. unfold pow2. apply Qpower_plus. discriminate. Qed.

Lemma pow2_le a b : (a <= b)%Z -> pow2 a <= pow2 b.
Proof. intros H. unfold pow2. apply Qpower_le_compat_l; [exact H | discriminate]. Qed.

Lemma pow2_Z n : (0 <= n)%Z -> pow2 n == inject_Z (2 ^ n).
Proof. intros H. unfold pow2. rewrite (Zpower_Qpower 2 n H). reflexivity. Qed.

Lemma frac_bounds x : 0 <= x - inject_Z (Qfloor x) < 1.
Proof.
  pose proof (Qfloor_le x) as Hlo. pose proof (Qlt_floor x) as Hhi.
  rewrite inject_Z_plus in Hhi. change (inject_Z 1) with 1 in Hhi. split; lra.
Qed.

Ltac cmp_fact E :=
  lazymatch type of E with
  | _ = Eq => apply Qeq_alt in E
  | _ = Lt => apply Qlt_alt in E
  | _ = Gt => apply Qgt_alt in E
  end.

Lemma rne_cases x :
  (rne x = Qfloor x /\ x - inject_Z (Qfloor x) <= 1 # 2)
  \/ (rne x = (Qfloor x + 1)%Z /\ 1 # 2 <= x - inject_Z (Qfloor x)).
Proof.
  unfold rne. cbv zeta.
  destruct (Qcompare (x - inject_Z (Qfloor x)) (1 # 2)) eqn:E.
  - apply Qeq_alt in E. destruct (Z.even (Qfloor x)); [left | right]; split; try reflexivity; lra.
  - apply Qlt_alt in E. left. split; [reflexivity | lra].
  - apply Qgt_alt in E. right. split; [reflexivity | lra].
Qed.

Lemma rne_Z z : rne (inject_Z z) = z.
Proof.
  unfold rne. cbv zeta. rewrite Qfloor_Z.
  destruct (Qcompare (inject_Z z - inject_Z z) (1 # 2)) eqn:E.
  - apply Qeq_alt in E. exfalso. lra.
  - reflexivity.
  - apply Qgt_alt in E. exfalso. lra.
Qed.

Lemma rne_mono x y : x <= y -> (rne x <= rne y)%Z.
Proof.
  intros Hxy.
  pose proof (Qfloor_resp_le x y Hxy) as Hf.
  destruct (Z.eq_dec (Qfloor x) (Qfloor y)) as [Heq | Hne].
  - unfold rne. cbv zeta. rewrite <- Heq.
    assert (Hr : x - inject_Z (Qfloor x) <= y - inject_Z (Qfloor x)) by lra.
    destruct (Qcompare (x - inject_Z (Qfloor x)) (1 # 2)) eqn:Ex;
      destruct (Qcompare (y - inject_Z (Qfloor x)) (1 # 2)) eqn:Ey;
      cmp_fact Ex; cmp_fact Ey;
      try (destruct (Z.even (Qfloor x))); try lia; exfalso; lra.
  - destruct (rne_cases x) as [[Hx _] | [Hx _]];
      destruct (rne_cases y) as [[Hy _] | [Hy _]]; lia.
Qed.

Lemma rne_le_Z x n : x <= inject_Z n -> (rne x <= n)%Z.
Proof. intros H. rewrite <- (rne_Z n). apply rne_mono, H. Qed.

Lemma rne_ge_Z x n : inject_Z n <= x -> (n <= rne x)%Z.
Proof. intros H. rewrite <- (rne_Z n). apply rne_mono, H. Qed.

Lemma rne_proper x y : x == y -> rne x = rne y.
Proof.
  intros H. apply Z.le_antisymm; apply rne_mono; rewrite H; apply Qle_refl.
Qed.

(** The exponent search: where it stops. *)
Lemma find_exp_spec a fuel : forall e0,
  let e := find_exp a e0 fuel in
  (e0 <= e <= e0 + Z.of_nat fuel)%Z
  /\ ((e < e0 + Z.of_nat fuel)%Z -> a < pow2 (e + 24))
  /\ ((e0 < e)%Z -> pow2 (e + 23) <= a).
Proof.
  induction fuel as [|fuel IH]; intros e0; cbv zeta.
  - simpl. split; [lia|]. split; intros; lia.
  - simpl find_exp. destruct (flt a (pow2 (e0 + 24))) eqn:E.
    + apply flt_iff in E. split; [lia|]. split; [intros _; exact E | lia].
    + apply flt_false_iff in E.
      destruct (IH (e0 + 1)%Z) as (Hr & Hlt & Hge). split; [lia|]. split.
      * intros H. apply Hlt. lia.
      * intros H. destruct (Z.eq_dec (find_exp a (e0 + 1) fuel) (e0 + 1)) as [-> | Hne].
        -- replace (e0 + 1 + 23)%Z with (e0 + 24)%Z by lia. exact E.
        -- apply Hge. lia.
Qed.

Lemma find_exp_mono a b fuel : forall e0,
  a <= b -> (find_exp a e0 fuel <= find_exp b e0 fuel)%Z.
Proof.
  induction fuel as [|fuel IH]; intros e0 Hab; [simpl; lia|].
  simpl. destruct (flt a (pow2 (e0 + 24))) eqn:Ea;
    destruct (flt b (pow2 (e0 + 24))) eqn:Eb.
  - lia.
  - pose proof (find_exp_spec b fuel (e0 + 1)%Z) as (Hr & _). lia.
  - apply flt_false_iff in Ea. apply flt_iff in Eb. exfalso. lra.
  - apply IH, Hab.
Qed.

Lemma round_abs_nonneg a : 0 <= a -> 0 <= round_abs a.
Proof.
  intros Ha. unfold round_abs. cbv zeta.
  pose proof (pow2_pos (find_exp a EXP_MIN EXP_STEPS)) as Hp.
  apply Qmult_le_0_compat; [|lra].
  change 0 with (inject_Z 0). rewrite <- Zle_Qle. apply rne_ge_Z.
  change (inject_Z 0) with 0. apply Qle_shift_div_l; [exact Hp | lra].
Qed.

Lemma round_abs_mono a b : 0 <= a -> a <= b -> round_abs a <= round_abs b.
Proof.
  intros Ha Hab. unfold round_abs. cbv zeta.
  pose proof (find_exp_mono a b EXP_STEPS EXP_MIN Hab) as He.
  pose proof (find_exp_spec a EXP_STEPS EXP_MIN) as (Hra & Hlta & _).
  pose proof (find_exp_spec b EXP_STEPS EXP_MIN) as (Hrb & _ & Hgeb).
  cbv zeta in *.
  set (ea := find_exp a EXP_MIN EXP_STEPS) in *.
  set (eb := find_exp b EXP_MIN EXP_STEPS) in *.
  pose proof (pow2_pos ea) as Hpa. pose proof (pow2_pos eb) as Hpb.
  destruct (Z.eq_dec ea eb) as [Heq | Hne].
  - rewrite <- Heq. apply Qmult_le_compat_r; [|lra].
    rewrite <- Zle_Qle. apply rne_mono.
    apply Qle_shift_div_l; [exact Hpa|].
    setoid_replace (a / pow2 ea * pow2 ea) with a by (field; lra). exact Hab.
  - assert (Hlt : (ea < eb)%Z) by lia.
    assert (Ha24 : a < pow2 (ea + 24)) by (apply Hlta; lia).
    assert (Hb23 : pow2 (eb + 23) <= b) by (apply Hgeb; lia).
    apply Qle_trans with (pow2 (ea + 24)).
    + rewrite pow2_plus, (Qmult_comm (pow2 ea)).
      apply Qmult_le_compat_r; [|lra].
      rewrite (pow2_Z 24) by lia. rewrite <- Zle_Qle. apply rne_le_Z.
      rewrite <- (pow2_Z 24) by lia.
      apply Qle_shift_div_r; [exact Hpa|].
      rewrite <- (Qmult_comm (pow2 ea)), <- pow2_plus. lra.
    + apply Qle_trans with (pow2 (eb + 23)); [apply pow2_le; lia|].
      rewrite pow2_plus, (Qmult_comm (pow2 eb)).
      apply Qmult_le_compat_r; [|lra].
      rewrite (pow2_Z 23) by lia. rewrite <- Zle_Qle. apply rne_ge_Z.
      rewrite <- (pow2_Z 23) by lia.
      apply Qle_shift_div_l; [exact Hpb|].
      rewrite <- (Qmult_comm (pow2 eb)), <- pow2_plus. exact Hb23.
Qed.

Theorem round32_mono x y : x <= y -> round32 x <= round32 y.
Proof.
  intros Hxy. unfold round32. rewrite !Qred_correct.
  destruct (flt x 0) eqn:Ex; destruct (flt y 0) eqn:Ey.
  - apply flt_iff in Ex. apply flt_iff in Ey.
    apply Qopp_le_compat. apply round_abs_mono.
    + apply Qabs_nonneg.
    + rewrite !Qabs_neg by lra. lra.
  - apply flt_iff in Ex. apply flt_false_iff in Ey.
    pose proof (round_abs_nonneg (Qabs x) (Qabs_nonneg x)).
    pose proof (round_abs_nonneg (Qabs y) (Qabs_nonneg y)). lra.
  - apply flt_false_iff in Ex. apply flt_iff in Ey. exfalso. lra.
  - apply flt_false_iff in Ex. apply flt_false_iff in Ey.
    apply round_abs_mono; [apply Qabs_nonneg|].
    rewrite !Qabs_pos by lra. exact Hxy.
Qed.

Lemma round32_proper x y : x == y -> round32 x == round32 y.
Proof.
  intros H. apply Qle_antisym; apply round32_mono; rewrite H; apply Qle_refl.
Qed.

Lemma round32_0 : round32 0 = 0.
Proof. vm_compute. reflexivity. Qed.

Lemma round32_nonneg x : 0 <= x -> 0 <= round32 x.
Proof. intros H. rewrite <- round32_0. apply round32_mono, H. Qed.

Lemma round32_nonpos x : x <= 0 -> round32 x <= 0.
Proof. intros H. rewrite <- round32_0. apply round32_mono, H. Qed.

Lemma round_abs_proper a b : 0 <= a -> a == b -> round_abs a == round_abs b.
Proof.
  intros Ha H. apply Qle_antisym; apply round_abs_mono; lra.
Qed.

(** A multiple of the unit of its own exponent is not changed. *)
Lemma round_abs_fix_le a k e :
  a == inject_Z k * pow2 e ->
  (find_exp a EXP_MIN EXP_STEPS <= e)%Z ->
  round_abs a == a.
Proof.
  intros Ha He. unfold round_abs. cbv zeta.
  set (e' := find_exp a EXP_MIN EXP_STEPS) in *.
  pose proof (pow2_pos e') as Hp.
  assert (Hk : a / pow2 e' == inject_Z (k * 2 ^ (e - e'))).
  { rewrite inject_Z_mult, <- (pow2_Z (e - e')) by lia.
    rewrite Ha. replace e with ((e - e') + e')%Z at 1 by lia.
    rewrite pow2_plus. field. lra. }
  rewrite (rne_proper _ _ Hk), rne_Z, <- Hk. field. lra.
Qed.

Lemma find_exp_representable a k e :
  a == inject_Z k * pow2 e ->
  (0 <= k < 2 ^ 24)%Z ->
  (EXP_MIN <= e)%Z ->
  (find_exp a EXP_MIN EXP_STEPS <= e)%Z.
Proof.
  intros Ha Hk He.
  pose proof (find_exp_spec a EXP_STEPS EXP_MIN) as (Hr & _ & Hge).
  cbv zeta in *.
  set (e' := find_exp a EXP_MIN EXP_STEPS) in *.
  destruct (Z_le_gt_dec e' e) as [Hle | Hgt]; [exact Hle | exfalso].
  assert (H23 : pow2 (e' + 23) <= a) by (apply Hge; lia).
  assert (H24 : a < pow2 (e + 24)).
  { rewrite Ha, (Z.add_comm e 24), pow2_plus.
    apply Qmult_lt_compat_r; [apply pow2_pos|].
    rewrite (pow2_Z 24) by lia. rewrite <- Zlt_Qlt. lia. }
  pose proof (pow2_le (e + 24) (e' + 23) ltac:(lia)). lra.
Qed.

Lemma round_abs_representable a k e :
  a == inject_Z k * pow2 e ->
  (0 <= k <= 2 ^ 24)%Z ->
  (EXP_MIN <= e)%Z ->
  round_abs a == a.
Proof.
  intros Ha Hk He.
  destruct (Z.eq_dec k (2 ^ 24)) as [-> | Hne].
  - assert (Ha' : a == inject_Z (2 ^ 23) * pow2 (e + 1)).
    { rewrite Ha, pow2_plus.
      change (pow2 1) with 2. change (inject_Z (2 ^ 24)) with (inject_Z (2 ^ 23) * 2).
      ring. }
    apply (round_abs_fix_le a (2 ^ 23) (e + 1) Ha').
    apply (find_exp_representable a (2 ^ 23) (e + 1) Ha'); [|lia].
    split; [|reflexivity]. apply Z.pow_nonneg; lia.
  - apply (round_abs_fix_le a k e Ha).
    apply (find_exp_representable a k e Ha); [lia | exact He].
Qed.

Lemma round_abs_idem a : 0 <= a -> round_abs (round_abs a) == round_abs a.
Proof.
  intros Ha.
  pose proof (find_exp_spec a EXP_STEPS EXP_MIN) as (Hr & Hlt & _).
  cbv zeta in *.
  set (e := find_exp a EXP_MIN EXP_STEPS) in *.
  set (k := rne (a / pow2 e)).
  assert (Hform : round_abs a == inject_Z k * pow2 e) by reflexivity.
  pose proof (pow2_pos e) as Hp.
  assert (Hk0 : (0 <= k)%Z).
  { apply rne_ge_Z. change (inject_Z 0) with 0.
    apply Qle_shift_div_l; [exact Hp | lra]. }
  destruct (Z_lt_ge_dec e (EXP_MIN + Z.of_nat EXP_STEPS)) as [Hin | Hout].
  - apply (round_abs_representable _ k e Hform); [|lia].
    split; [exact Hk0|]. apply rne_le_Z.
    rewrite <- (pow2_Z 24) by lia.
    apply Qle_shift_div_r; [exact Hp|].
    rewrite <- (Qmult_comm (pow2 e)), <- pow2_plus.
    pose proof (Hlt Hin). lra.
  - apply (round_abs_fix_le _ k e Hform).
    pose proof (find_exp_spec (round_abs a) EXP_STEPS EXP_MIN) as (Hr' & _).
    cbv zeta in Hr'. lia.
Qed.

Lemma round32_opp x : round32 (- x) == - round32 x.
Proof.
  unfold round32. rewrite !Qred_correct.
  assert (Habs : round_abs (Qabs (- x)) == round_abs (Qabs x)).
  { apply round_abs_proper; [apply Qabs_nonneg | apply Qabs_opp]. }
  destruct (Qlt_le_dec x 0) as [Hneg | Hnn].
  - assert (E1 : flt x 0 = true) by (apply flt_iff; exact Hneg).
    assert (E2 : flt (- x) 0 = false) by (apply flt_false_iff; lra).
    rewrite E1, E2, Habs. ring.
  - destruct (Qlt_le_dec 0 x) as [Hpos | Hz].
    + assert (E1 : flt x 0 = false) by (apply flt_false_iff; lra).
      assert (E2 : flt (- x) 0 = true) by (apply flt_iff; lra).
      rewrite E1, E2, Habs. reflexivity.
    + assert (E1 : flt x 0 = false) by (apply flt_false_iff; lra).
      assert (E2 : flt (- x) 0 = false) by (apply flt_false_iff; lra).
      rewrite E1, E2, Habs.
      assert (Hx : x == 0) by lra.
      assert (Hr : round_abs (Qabs x) == 0).
      { rewrite (round_abs_proper (Qabs x) 0 (Qabs_nonneg x)).
        - vm_compute. reflexivity.
        - rewrite Hx. reflexivity. }
      rewrite Hr. reflexivity.
Qed.

Lemma round32_nonneg_eq x : 0 <= x -> round32 x == round_abs x.
Proof.
  intros H. unfold round32. rewrite Qred_correct.
  assert (E : flt x 0 = false) by (apply flt_false_iff; exact H).
  rewrite E. apply round_abs_proper; [apply Qabs_nonneg | apply Qabs_pos, H].
Qed.

Theorem round32_idem x : round32 (round32 x) == round32 x.
Proof.
  assert (Hpos : forall y, 0 <= y -> round32 (round32 y) == round32 y).
  { intros y Hy. pose proof (round32_nonneg y Hy) as Hr.
    rewrite (round32_nonneg_eq (round32 y) Hr).
    rewrite (round_abs_proper _ _ Hr (round32_nonneg_eq y Hy)).
    rewrite (round32_nonneg_eq y Hy). apply round_abs_idem, Hy. }
  destruct (Qlt_le_dec x 0) as [Hneg | Hnn]; [|apply Hpos, Hnn].
  assert (Hx : x == - (- x)) by ring.
  rewrite (round32_proper _ _ Hx) at 2.
  rewrite (round32_proper (round32 x) (- round32 (- x))).
  - rewrite round32_opp, (round32_opp (- x)), Hpos by lra. reflexivity.
  - rewrite <- round32_opp. apply round32_proper. exact Hx.
Qed.

(** Whole numbers up to 2^24 in magnitude convert exactly. *)
Theorem round32_int z :
  (Z.abs z <= 2 ^ 24)%Z -> round32 (inject_Z z) == inject_Z z.
Proof.
  assert (Hpos : forall n, (0 <= n <= 2 ^ 24)%Z ->
                           round32 (inject_Z n) == inject_Z n).
  { intros n Hn.
    assert (H0 : 0 <= inject_Z n).
    { change 0 with (inject_Z 0). rewrite <- Zle_Qle. lia. }
    rewrite (round32_nonneg_eq _ H0).
    apply (round_abs_representable _ n 0); [|exact Hn | unfold EXP_MIN; lia].
    change (pow2 0) with 1. ring. }
  intros Hz. destruct (Z_le_gt_dec 0 z) as [Hnn | Hneg].
  - apply Hpos. lia.
  - assert (Hx : inject_Z z == - inject_Z (- z)) by (rewrite inject_Z_opp; ring).
    rewrite (round32_proper _ _ Hx), round32_opp, Hpos by lia.
    rewrite inject_Z_opp. ring.
Qed.

(** ** The scheduler: emergency levels *)

(** Every interval the scheduler can return is one of five. *)
Lemma CalculateAdaptiveSleepTime_intervals g t f :
  In (snd (CalculateAdaptiveSleepTime g t f))
     [MIN_SLEEP_INTERVAL; u64 (MIN_SLEEP_INTERVAL * 2); SLEEP_MODE_INTERVAL;
      LONG_SLEEP_INTERVAL; NORMAL_SLEEP_INTERVAL; (NORMAL_SLEEP_INTERVAL / 2)%Z].
Proof.
  unfold CalculateAdaptiveSleepTime.
  destruct (fge t CRITICAL_TEMP_THRESHOLD); [simpl; tauto|].
  destruct (fge t EMERGENCY_TEMP_THRESHOLD); [simpl; tauto|].
  destruct (systemInSleepMode (set_thermalEmergency false g)); [simpl; tauto|].
  cbv zeta.
  destruct (STABLE_READINGS_FOR_SLOWDOWN <=? _)%Z; [simpl; tauto|].
  destruct (flt _ _); simpl; tauto.
Qed.

(** C6: at or above the critical threshold (90) the scheduler sets the
    emergency flag and returns the 1 s interval, whatever the stability
    counter, the suspended flag and the rest of the state are; that
    interval is the shortest one the scheduler ever returns, and nothing
    but the emergency flag is changed. *)
Theorem critical_reading_forces_emergency (g : Globals) (t f : Q) :
  CRITICAL_TEMP_THRESHOLD <= t ->
  CalculateAdaptiveSleepTime g t f
    = (set_thermalEmergency true g, MIN_SLEEP_INTERVAL)
  /\ thermalEmergency (fst (CalculateAdaptiveSleepTime g t f)) = true
  /\ MIN_SLEEP_INTERVAL = 1000000000%Z
  /\ forall g' t' f',
       (MIN_SLEEP_INTERVAL <= snd (CalculateAdaptiveSleepTime g' t' f'))%Z.
Proof.
  intros Hcrit.
  assert (E : CalculateAdaptiveSleepTime g t f
              = (set_thermalEmergency true g, MIN_SLEEP_INTERVAL)).
  { unfold CalculateAdaptiveSleepTime.
    apply fge_iff in Hcrit. rewrite Hcrit. reflexivity. }
  split; [exact E|]. rewrite E. split; [reflexivity|]. split; [reflexivity|].
  intros g' t' f'.
  pose proof (CalculateAdaptiveSleepTime_intervals g' t' f') as Hin.
  simpl in Hin.
  repeat (destruct Hin as [<- | Hin]; [vm_compute; discriminate|]).
  contradiction.
Qed.

Lemma critical_reading_forces_emergency_witness :
  CalculateAdaptiveSleepTime (InitFanController_state defaultTable) 95 1
    = (set_thermalEmergency true (InitFanController_state defaultTable),
       MIN_SLEEP_INTERVAL).
Proof.
  apply (critical_reading_forces_emergency
           (InitFanController_state defaultTable) 95 1).
  vm_compute. discriminate.
Defined.

(** C10: after a call of the scheduler on temperature [t] the emergency
    flag is exactly [t >= 80], whatever it was before; so of two
    successive calls only the second reading decides the flag. *)
Theorem thermalEmergency_tracks_reading (g : Globals) (t f : Q) :
  thermalEmergency (fst (CalculateAdaptiveSleepTime g t f))
    = fge t EMERGENCY_TEMP_THRESHOLD
  /\ forall t2 f2,
       thermalEmergency
         (fst (CalculateAdaptiveSleepTime
                 (fst (CalculateAdaptiveSleepTime g t f)) t2 f2))
       = fge t2 EMERGENCY_TEMP_THRESHOLD.
Proof.
  assert (H : forall g t f,
             thermalEmergency (fst (CalculateAdaptiveSleepTime g t f))
             = fge t EMERGENCY_TEMP_THRESHOLD).
  { clear. intros g t f. unfold CalculateAdaptiveSleepTime.
    cmp_case (fge t CRITICAL_TEMP_THRESHOLD) Hc.
    - simpl. symmetry. apply fge_iff.
      unfold CRITICAL_TEMP_THRESHOLD, EMERGENCY_TEMP_THRESHOLD in *. lra.
    - destruct (fge t EMERGENCY_TEMP_THRESHOLD); [reflexivity|].
      destruct (systemInSleepMode (set_thermalEmergency false g)); [reflexivity|].
      cbv zeta.
      destruct (reading_stable _ _ _);
        destruct (STABLE_READINGS_FOR_SLOWDOWN <=? _)%Z; try reflexivity;
        destruct (flt _ _); reflexivity. }
  split; [apply H | intros; apply H].
Qed.

(** ** The control loop: one iteration *)

Lemma ControlTick_globals t ok g :
  fst (ControlTick (mkTick (Some t) ok) g)
  = fst (sched_step g (t, CalculateFanLevel (fanControllerTable g) t)).
Proof.
  unfold ControlTick, sched_step. simpl.
  destruct (CalculateAdaptiveSleepTime g t _). reflexivity.
Qed.

Lemma device_writes_app tr1 tr2 :
  device_writes (tr1 ++ tr2) = device_writes tr1 ++ device_writes tr2.
Proof. apply filter_app. Qed.

(** The device writes of a tick with a good sensor reading. *)
Lemma ControlTick_device_writes t ok g :
  device_writes (snd (ControlTick (mkTick (Some t) ok) g))
  = if shouldUpdateFan g (CalculateFanLevel (fanControllerTable g) t)
    then [EvSetSpeed (CalculateFanLevel (fanControllerTable g) t)]
    else [].
Proof.
  unfold ControlTick. simpl.
  destruct (CalculateAdaptiveSleepTime g t _) as [g1 iv]. simpl.
  rewrite device_writes_app.
  destruct (shouldUpdateFan g _); [|reflexivity].
  destruct ok; reflexivity.
Qed.




(** C7: an iteration whose sensor read fails changes none of
    [lastTemperature], [lastFanLevel], [stableReadings] and
    [thermalEmergency], writes nothing to the device, sleeps once, for the
    normal interval of 10 s, and the loop goes on with the next
    iteration. *)
Theorem sensor_failure_skips_decision
    (g : Globals) (ok : bool) (rest : list TickInput) :
  let r := LoopIteration (mkTick None ok) g in
  lastTemperature (fst r) = lastTemperature g
  /\ lastFanLevel (fst r) = lastFanLevel g
  /\ stableReadings (fst r) = stableReadings g
  /\ thermalEmergency (fst r) = thermalEmergency g
  /\ device_writes (snd r) = []
  /\ sleeps (snd r) = [NORMAL_SLEEP_INTERVAL]
  /\ NORMAL_SLEEP_INTERVAL = (10 * 1000000000)%Z
  /\ RunLoop (mkTick None ok :: rest) g
     = (fst (RunLoop rest (fst r)), snd r ++ snd (RunLoop rest (fst r))).
Proof.
  cbv zeta. unfold LoopIteration, CheckSystemSleepState, ControlTick. simpl.
  repeat (split; [reflexivity|]).
  unfold LoopIteration, CheckSystemSleepState, ControlTick. simpl.
  destruct (RunLoop rest _). reflexivity.
Qed.

(** ** The stability counter *)

Lemma stableReadings_sched g t f :
  stableReadings (fst (CalculateAdaptiveSleepTime g t f))
  = if fge t EMERGENCY_TEMP_THRESHOLD || systemInSleepMode g
    then stableReadings g
    else if reading_stable g t f then u32 (stableReadings g + 1) else 0%Z.
Proof.
  unfold CalculateAdaptiveSleepTime.
  cmp_case (fge t CRITICAL_TEMP_THRESHOLD) Hc.
  - assert (E : fge t EMERGENCY_TEMP_THRESHOLD = true).
    { apply fge_iff.
      unfold CRITICAL_TEMP_THRESHOLD, EMERGENCY_TEMP_THRESHOLD in *. lra. }
    rewrite E. reflexivity.
  - destruct (fge t EMERGENCY_TEMP_THRESHOLD); [reflexivity|].
    simpl (systemInSleepMode (set_thermalEmergency false g)).
    destruct (systemInSleepMode g); [reflexivity|].
    cbv zeta. simpl orb. cbv iota.
    change (reading_stable (set_thermalEmergency false g) t f)
      with (reading_stable g t f).
    destruct (reading_stable g t f);
      destruct (STABLE_READINGS_FOR_SLOWDOWN <=? _)%Z; try reflexivity;
      destruct (flt _ _); reflexivity.
Qed.

Lemma stableReadings_sched_step g r :
  stableReadings (fst (sched_step g r))
  = stableReadings (fst (CalculateAdaptiveSleepTime g (fst r) (snd r))).
Proof.
  unfold sched_step.
  destruct (CalculateAdaptiveSleepTime g (fst r) (snd r)). reflexivity.
Qed.

(** Below the elevated threshold and not suspended, the interval is the
    relaxed one exactly when the updated counter has reached ten. *)
Lemma relaxed_iff_counter g t f :
  fge t EMERGENCY_TEMP_THRESHOLD = false ->
  systemInSleepMode g = false ->
  (snd (CalculateAdaptiveSleepTime g t f) =? LONG_SLEEP_INTERVAL)%Z
  = (STABLE_READINGS_FOR_SLOWDOWN
       <=? stableReadings (fst (CalculateAdaptiveSleepTime g t f)))%Z.
Proof.
  intros He Hs. unfold CalculateAdaptiveSleepTime.
  assert (Hc : fge t CRITICAL_TEMP_THRESHOLD = false).
  { apply fge_false_iff. apply fge_false_iff in He.
    unfold CRITICAL_TEMP_THRESHOLD, EMERGENCY_TEMP_THRESHOLD in *. lra. }
  rewrite Hc, He. simpl (systemInSleepMode _). rewrite Hs. cbv zeta.
  set (g2 := if reading_stable _ t f then _ else _).
  destruct (STABLE_READINGS_FOR_SLOWDOWN <=? stableReadings g2)%Z eqn:E.
  - simpl. rewrite E. reflexivity.
  - destruct (flt _ _); simpl; rewrite E; reflexivity.
Qed.




Lemma u32_range x : (0 <= u32 x < 2 ^ 32)%Z.
Proof. unfold u32. apply Z.mod_pos_bound. reflexivity. Qed.

Lemma stableReadings_sched_range g t f :
  (0 <= stableReadings g < 2 ^ 32)%Z ->
  (0 <= stableReadings (fst (CalculateAdaptiveSleepTime g t f)) < 2 ^ 32)%Z.
Proof.
  intros H. rewrite stableReadings_sched.
  destruct (_ || _); [exact H|].
  destruct (reading_stable g t f); [apply u32_range | lia].
Qed.

Lemma stableReadings_LoopIteration_range inp g :
  (0 <= stableReadings g < 2 ^ 32)%Z ->
  (0 <= stableReadings (fst (LoopIteration inp g)) < 2 ^ 32)%Z.
Proof.
  intros H. unfold LoopIteration, CheckSystemSleepState.
  destruct inp as [[t|] ok].
  - rewrite ControlTick_globals, stableReadings_sched_step.
    apply stableReadings_sched_range. exact H.
  - exact H.
Qed.

(** C2, counterexample: eleven iterations on a steady sensor take the
    counter from 0 to 11, past the required-stable-count. *)
Lemma stableReadings_exceeds_required_count :
  ~ (forall inps : list TickInput,
       (stableReadings (fst (RunLoop inps reset_state))
        <= STABLE_READINGS_FOR_SLOWDOWN)%Z).
Proof.
  intros H. specialize (H (steady_ticks 11)).
  vm_compute in H. apply H. reflexivity.
Qed.

(** C2, as the code has it: the counter is a [u32] that is incremented
    without a ceiling.  Along every run of the loop it stays below 2^32;
    a stable reading below the elevated threshold, with the suspended flag
    clear, takes the counter [n] to [(n + 1) mod 2^32], so an increment
    applied at the required-stable-count 10 gives 11. *)
Theorem stableReadings_wraps_without_ceiling
    (inps : list TickInput) (g : Globals) :
  (0 <= stableReadings g < 2 ^ 32)%Z ->
  (0 <= stableReadings (fst (RunLoop inps g)) < 2 ^ 32)%Z
  /\ (forall t f,
        t < EMERGENCY_TEMP_THRESHOLD ->
        systemInSleepMode g = false ->
        reading_stable g t f = true ->
        stableReadings (fst (CalculateAdaptiveSleepTime g t f))
        = ((stableReadings g + 1) mod 2 ^ 32)%Z)
  /\ ((STABLE_READINGS_FOR_SLOWDOWN + 1) mod 2 ^ 32
      = STABLE_READINGS_FOR_SLOWDOWN + 1)%Z.
Proof.
  intros H. split; [|split].
  - revert g H. induction inps as [|inp rest IH]; intros g H.
    + exact H.
    + simpl.
      pose proof (stableReadings_LoopIteration_range inp g H) as H1.
      destruct (LoopIteration inp g) as [g1 tr1]. simpl in H1.
      specialize (IH g1 H1).
      destruct (RunLoop rest g1) as [g2 tr2]. exact IH.
  - intros t f Ht Hs Hst. rewrite stableReadings_sched.
    apply fge_false_iff in Ht. rewrite Ht, Hs, Hst. reflexivity.
  - reflexivity.
Qed.

Lemma stableReadings_wraps_without_ceiling_witness :
  let g := fst (RunLoop (steady_ticks 10) reset_state) in
  stableReadings g = 10%Z
  /\ (0 <= stableReadings (fst (RunLoop (steady_ticks 1) g)) < 2 ^ 32)%Z
  /\ stableReadings (fst (CalculateAdaptiveSleepTime g 1 (1 # 200))) = 11%Z.
Proof.
  cbv zeta. split; [vm_compute; reflexivity|].
  destruct (stableReadings_wraps_without_ceiling
              (steady_ticks 1) (fst (RunLoop (steady_ticks 10) reset_state)))
    as (Hrange & Hstep & _).
  { vm_compute. split; [discriminate | reflexivity]. }
  split; [exact Hrange|].
  rewrite Hstep.
  - vm_compute. reflexivity.
  - vm_compute. reflexivity.
  - vm_compute. reflexivity.
  - vm_compute. reflexivity.
Defined.

(** ** Runs of the scheduler *)

Lemma systemInSleepMode_sched_step g r :
  systemInSleepMode (fst (sched_step g r)) = systemInSleepMode g.
Proof.
  unfold sched_step, CalculateAdaptiveSleepTime.
  destruct (fge _ CRITICAL_TEMP_THRESHOLD); [reflexivity|].
  destruct (fge _ EMERGENCY_TEMP_THRESHOLD); [reflexivity|].
  simpl (systemInSleepMode (set_thermalEmergency false g)).
  destruct (systemInSleepMode g) eqn:Hs; [simpl; exact Hs|].
  cbv zeta.
  set (g2 := if reading_stable _ _ _ then _ else _).
  assert (Hg2 : systemInSleepMode g2 = false).
  { subst g2. destruct (reading_stable _ _ _); simpl; exact Hs. }
  destruct (_ <=? _)%Z; [simpl; exact Hg2|].
  destruct (flt _ _); simpl; exact Hg2.
Qed.

(** With the suspended flag clear and all readings below the elevated
    threshold, the relaxed-interval decisions are those of the counter
    fed with the stability verdicts. *)
Lemma sched_run_relaxed rs : forall g,
  systemInSleepMode g = false ->
  Forall (fun r => fst r < EMERGENCY_TEMP_THRESHOLD) rs ->
  map (fun iv => Z.eqb iv LONG_SLEEP_INTERVAL) (snd (sched_run g rs))
  = relaxed_flags (stableReadings g) (stable_flags g rs).
Proof.
  induction rs as [|r rest IH]; intros g Hs Hall; [reflexivity|].
  inversion Hall as [|? ? Hr Hrest]; subst.
  apply fge_false_iff in Hr.
  simpl.
  pose proof (relaxed_iff_counter g (fst r) (snd r) Hr Hs) as Hiv.
  pose proof (stableReadings_sched g (fst r) (snd r)) as Hc.
  rewrite Hr, Hs in Hc. simpl in Hc.
  pose proof (systemInSleepMode_sched_step g r) as Hs1. rewrite Hs in Hs1.
  specialize (IH (fst (sched_step g r)) Hs1 Hrest).
  unfold sched_step in *.
  destruct (CalculateAdaptiveSleepTime g (fst r) (snd r)) as [g1 iv].
  simpl fst in *. simpl snd in *.
  destruct (sched_run _ rest) as [g2 ivs]. simpl in *.
  rewrite Hiv, IH, Hc. reflexivity.
Qed.

(** C4: from a counter of zero with the suspended flag clear, readings
    all below the elevated threshold of which the first nine are stable,
    the tenth is not and the following eleven are stable again get the
    relaxed 30 s interval on the last two ticks only, that is from the
    tenth consecutive stable tick of the final run on, and on no tick of
    the first run. *)
Theorem relaxed_interval_after_ten_stable (g : Globals) (rs : list Reading) :
  stableReadings g = 0%Z ->
  systemInSleepMode g = false ->
  Forall (fun r => fst r < EMERGENCY_TEMP_THRESHOLD) rs ->
  stable_flags g rs = repeat true 9 ++ [false] ++ repeat true 11 ->
  map (fun iv => Z.eqb iv LONG_SLEEP_INTERVAL) (snd (sched_run g rs))
  = repeat false 9 ++ [false] ++ repeat false 9 ++ [true; true]
  /\ LONG_SLEEP_INTERVAL = (30 * 1000000000)%Z.
Proof.
  intros Hc Hs Hall Hflags. split; [|reflexivity].
  rewrite (sched_run_relaxed rs g Hs Hall), Hc, Hflags.
  vm_compute. reflexivity.
Qed.

Lemma relaxed_interval_after_ten_stable_witness :
  map (fun iv => Z.eqb iv LONG_SLEEP_INTERVAL)
      (snd (sched_run reset_state nine_one_eleven))
  = repeat false 9 ++ [false] ++ repeat false 9 ++ [true; true].
Proof.
  apply (relaxed_interval_after_ten_stable reset_state nine_one_eleven).
  - reflexivity.
  - reflexivity.
  - unfold nine_one_eleven. simpl.
    repeat (constructor; [vm_compute; reflexivity|]). constructor.
  - vm_compute. reflexivity.
Defined.

(** ** Loading the curve *)

Lemma saves_app tr1 tr2 : saves (tr1 ++ tr2) = saves tr1 ++ saves tr2.
Proof. unfold saves. apply flat_map_app. Qed.

Lemma io_trace_CreateDir w :
  io_trace (CreateDir w) = io_trace w ++ [IoCreateDir].
Proof. reflexivity. Qed.

(** A call [WriteConfigFile(NULL)] adds one save to the trace. *)
Lemma saves_WriteConfigFile table w :
  saves (io_trace (WriteConfigFile table w)) = saves (io_trace w) ++ [table].
Proof.
  unfold WriteConfigFile.
  set (w1 := emit (IoWriteConfig table) w).
  assert (H1 : saves (io_trace w1) = saves (io_trace w) ++ [table]).
  { subst w1. simpl. rewrite saves_app. reflexivity. }
  destruct (match table with Some t => Some t | None => _ end) as [t|];
    [|exact H1].
  set (w2 := if dir_exists w1 then w1 else CreateDir w1).
  assert (H2 : saves (io_trace w2) = saves (io_trace w) ++ [table]).
  { subst w2. destruct (dir_exists w1); [exact H1|].
    rewrite io_trace_CreateDir, saves_app, H1. simpl. apply app_nil_r. }
  destruct (dir_exists w2 && fopen_ok w2); [|exact H2].
  simpl. rewrite saves_app, H2. simpl. apply app_nil_r.
Qed.

(** When the directory can be made and the file opened,
    [WriteConfigFile(NULL)] leaves the default curve in the file. *)
Lemma config_file_WriteConfigFile_default w :
  heap_ok w = true ->
  (dir_exists w || mkdir_ok w) && fopen_ok w = true ->
  config_file (WriteConfigFile None w) = Some defaultTable.
Proof.
  intros Hh Hw. unfold WriteConfigFile. simpl. rewrite Hh.
  apply andb_true_iff in Hw. destruct Hw as [Hd Hf].
  destruct (dir_exists w) eqn:E; simpl.
  - rewrite E, Hf. reflexivity.
  - rewrite E. simpl in *. rewrite Hd, Hf. reflexivity.
Qed.

(** C1, counterexample: on a file cut short after two records the load
    returns the default curve but makes no save at all. *)
Lemma short_file_is_not_rewritten :
  snd (ReadConfigFile short_file_world) = Some defaultTable
  /\ List.length (saves (io_trace (fst (ReadConfigFile short_file_world))))
     <> 1%nat.
Proof. split; [vm_compute; reflexivity | vm_compute; discriminate]. Qed.

(** C1, as the code has it: when the allocation succeeds, the load
    returns the default curve both when the record is absent (no
    directory, or no file) and when it is present but too short.  In the
    absent case it calls [WriteConfigFile(NULL)] exactly once, which saves
    the default curve to the file when the file can be created; in the
    too-short case it makes no save and leaves the file as it found it. *)
Theorem ReadConfigFile_fallback (w : World) :
  heap_ok w = true ->
  (dir_exists w = false \/ config_file w = None ->
     snd (ReadConfigFile w) = Some defaultTable
     /\ saves (io_trace (fst (ReadConfigFile w))) = saves (io_trace w) ++ [None]
     /\ ((dir_exists w || mkdir_ok w) && fopen_ok w = true ->
         config_file (fst (ReadConfigFile w)) = Some defaultTable))
  /\ (forall content,
        dir_exists w = true ->
        config_file w = Some content ->
        (List.length content < TABLE_POINTS)%nat ->
        snd (ReadConfigFile w) = Some defaultTable
        /\ saves (io_trace (fst (ReadConfigFile w))) = saves (io_trace w)
        /\ config_file (fst (ReadConfigFile w)) = Some content).
Proof.
  intros Hh. split.
  - intros Habs. unfold ReadConfigFile.
    change (heap_ok (InitLog w)) with (heap_ok w). rewrite Hh. simpl negb.
    cbv iota.
    change (dir_exists (InitLog w)) with (dir_exists w).
    change (config_file (InitLog w)) with (config_file w).
    assert (Hi : saves (io_trace (InitLog w)) = saves (io_trace w)).
    { simpl. rewrite saves_app. simpl. apply app_nil_r. }
    destruct (dir_exists w) eqn:Hd; simpl negb; cbv iota.
    + destruct Habs as [Habs | Habs]; [discriminate|]. rewrite Habs.
      cbv zeta. simpl fst. simpl snd.
      split; [reflexivity|]. split.
      * change (io_trace (WriteLog ?m ?x)) with (io_trace x ++ [IoLog m]).
        rewrite saves_app, saves_WriteConfigFile, Hi. simpl. apply app_nil_r.
      * intros Hw.
        change (config_file (WriteLog ?m ?x)) with (config_file x).
        apply config_file_WriteConfigFile_default; [exact Hh|].
        simpl. rewrite Hd. exact Hw.
    + cbv zeta. simpl fst. simpl snd.
      split; [reflexivity|]. split.
      * change (io_trace (WriteLog ?m ?x)) with (io_trace x ++ [IoLog m]).
        rewrite saves_app, saves_WriteConfigFile, io_trace_CreateDir, saves_app, Hi.
        simpl. rewrite !app_nil_r. reflexivity.
      * intros Hw.
        change (config_file (WriteLog ?m ?x)) with (config_file x).
        apply config_file_WriteConfigFile_default; [exact Hh|].
        simpl. rewrite Hd. simpl in *.
        apply andb_true_iff in Hw. destruct Hw as [Hm Hf].
        rewrite Hm, Hf. reflexivity.
  - intros content Hd Hc Hlen. unfold ReadConfigFile.
    change (heap_ok (InitLog w)) with (heap_ok w). rewrite Hh. simpl negb.
    cbv iota.
    change (dir_exists (InitLog w)) with (dir_exists w).
    change (config_file (InitLog w)) with (config_file w).
    change (fopen_ok (InitLog w)) with (fopen_ok w).
    rewrite Hd, Hc. simpl negb. cbv iota.
    assert (Hi : saves (io_trace (InitLog w)) = saves (io_trace w)).
    { simpl. rewrite saves_app. simpl. apply app_nil_r. }
    destruct (fopen_ok w).
    + unfold fread_table.
      assert (E : (TABLE_POINTS <=? List.length content)%nat = false).
      { apply Nat.leb_gt. exact Hlen. }
      rewrite E. simpl Z.eqb. cbv iota. simpl fst. simpl snd.
      split; [reflexivity|]. split.
      * change (io_trace (WriteLog ?m ?x)) with (io_trace x ++ [IoLog m]).
        rewrite saves_app, Hi. simpl. apply app_nil_r.
      * simpl. exact Hc.
    + simpl fst. simpl snd. split; [reflexivity|]. split; [exact Hi|].
      simpl. exact Hc.
Qed.

Lemma ReadConfigFile_fallback_witness :
  (snd (ReadConfigFile fresh_world) = Some defaultTable
   /\ saves (io_trace (fst (ReadConfigFile fresh_world))) = [None]
   /\ config_file (fst (ReadConfigFile fresh_world)) = Some defaultTable)
  /\ (snd (ReadConfigFile short_file_world) = Some defaultTable
      /\ saves (io_trace (fst (ReadConfigFile short_file_world))) = []
      /\ config_file (fst (ReadConfigFile short_file_world))
         = Some (firstn 2 defaultTable)).
Proof.
  split.
  - destruct (ReadConfigFile_fallback fresh_world) as [Habsent _];
      [reflexivity|].
    destruct Habsent as (Ht & Hs & Hf); [left; reflexivity|].
    split; [exact Ht|]. split; [exact Hs|]. apply Hf. reflexivity.
  - destruct (ReadConfigFile_fallback short_file_world) as [_ Hshort];
      [reflexivity|].
    apply (Hshort (firstn 2 defaultTable)).
    + reflexivity.
    + reflexivity.
    + simpl. unfold TABLE_POINTS. lia.
Defined.

(** ** The curve evaluator *)

Lemma temp_of_exact p :
  (Z.abs (temperature_c p) <= 2 ^ 24)%Z ->
  temp_of p == inject_Z (temperature_c p).
Proof. intros H. unfold temp_of. apply round32_int, H. Qed.

Lemma temp_of_lt p q :
  (Z.abs (temperature_c p) <= 2 ^ 24)%Z ->
  (Z.abs (temperature_c q) <= 2 ^ 24)%Z ->
  (temperature_c p < temperature_c q)%Z -> temp_of p < temp_of q.
Proof.
  intros Hp Hq H. rewrite (temp_of_exact p Hp), (temp_of_exact q Hq).
  rewrite <- Zlt_Qlt. exact H.
Qed.

(** The shape of a stored curve, spelled out. *)
Lemma curve_shape_inv tbl :
  curve_shape tbl = true ->
  exists p0 p1 p2 p3 p4,
    tbl = [p0; p1; p2; p3; p4]
    /\ (temperature_c p0 < temperature_c p1)%Z
    /\ (temperature_c p1 < temperature_c p2)%Z
    /\ (temperature_c p2 < temperature_c p3)%Z
    /\ (temperature_c p3 < temperature_c p4)%Z.
Proof.
  unfold curve_shape, TABLE_POINTS. intros H.
  apply andb_true_iff in H. destruct H as [Hlen Hinc].
  apply Nat.eqb_eq in Hlen.
  destruct tbl as [|p0 [|p1 [|p2 [|p3 [|p4 [|p5 rest]]]]]]; try discriminate.
  simpl in Hinc.
  repeat (apply andb_true_iff in Hinc; destruct Hinc as [?H Hinc]).
  exists p0, p1, p2, p3, p4.
  repeat split; try reflexivity; apply Z.ltb_lt; assumption.
Qed.

(** C9, counterexample: a curve whose last point sits at 0 degrees is
    well shaped, yet at 0 degrees the evaluator returns 0.0 and not the
    last point's duty cycle. *)
Lemma clamp_fails_at_nonpositive_last_point :
  curve_shape frost_table = true
  /\ temp_of (point_at frost_table 4) <= 0
  /\ ~ CalculateFanLevel (Some frost_table) 0
       == fanLevel_f (point_at frost_table 4).
Proof.
  split; [reflexivity|]. split; [vm_compute; discriminate|].
  vm_compute. discriminate.
Qed.

(** C9, as the code has it: on a curve of five points with strictly
    increasing temperatures of magnitude at most 2^24, which the
    conversion to [float] leaves as they are, a temperature above 0 that
    is at or above the last point's temperature evaluates to the last
    point's duty cycle exactly.  (The test [temperature <= 0] comes first
    and returns 0.0; beyond 2^24 neighbouring temperatures can convert to
    the same [float], and then the ramp below the first point answers.) *)
Theorem clamp_above_last_point (tbl : Table) (t : Q) :
  curve_shape tbl = true ->
  temps_in_range tbl = true ->
  0 < t ->
  temp_of (point_at tbl 4) <= t ->
  CalculateFanLevel (Some tbl) t = fanLevel_f (point_at tbl 4).
Proof.
  intros Hshape Hrange Hpos Hlast.
  destruct (curve_shape_inv tbl Hshape)
    as (p0 & p1 & p2 & p3 & p4 & -> & H01 & H12 & H23 & H34).
  unfold temps_in_range in Hrange. simpl in Hrange.
  repeat (apply andb_true_iff in Hrange; destruct Hrange as [?B Hrange]).
  repeat match goal with
         | H : (_ <=? _)%Z = true |- _ => apply Z.leb_le in H
         end.
  assert (H04 : temp_of p0 < temp_of p4).
  { apply temp_of_lt; [assumption | assumption | lia]. }
  unfold CalculateFanLevel, point_at in *. simpl nth in *.
  cmp_case (fle t 0) Hzero; [lra|].
  cmp_case (fle t (temp_of p0)) Hfirst; [lra|].
  apply fge_iff in Hlast. rewrite Hlast. reflexivity.
Qed.

Lemma clamp_above_last_point_witness :
  CalculateFanLevel (Some defaultTable) 120 = 1.
Proof.
  apply (clamp_above_last_point defaultTable 120).
  - reflexivity.
  - reflexivity.
  - reflexivity.
  - vm_compute. discriminate.
Defined.

(** Without the bound the first and the last temperature can convert to
    the same [float]; then the ramp answers at the last point's
    temperature, with the first point's duty cycle. *)
Example crowded_temperatures_reach_the_ramp :
  curve_shape crowded_table = true
  /\ temps_in_range crowded_table = false
  /\ temp_of (point_at crowded_table 0) = temp_of (point_at crowded_table 4)
  /\ CalculateFanLevel (Some crowded_table) 134217728
     = fanLevel_f (point_at crowded_table 0).
Proof. repeat split; vm_compute; reflexivity. Qed.

(** *** The value, return by return *)

Lemma scan_table_value tbl t todo : forall i,
  scan_table tbl t i todo = branch_value tbl t (scan_branch tbl t i todo).
Proof.
  induction todo as [|todo IH]; intros i; [reflexivity|].
  simpl. destruct (_ && _); [reflexivity | apply IH].
Qed.

Lemma CalculateFanLevel_by_branch tbl t :
  CalculateFanLevel (Some tbl) t = branch_value tbl t (branch_of tbl t).
Proof.
  unfold CalculateFanLevel, branch_of.
  destruct (fle t 0); [reflexivity|].
  destruct (fle t (temp_of (point_at tbl 0))); [reflexivity|].
  destruct (fge t (temp_of (point_at tbl 4))); [reflexivity|].
  apply scan_table_value.
Qed.

Lemma scan_branch_inv tbl t todo : forall i,
  match scan_branch tbl t i todo with
  | InInterval j =>
      (i <= j < i + todo)%nat
      /\ temp_of (point_at tbl j) <= t <= temp_of (point_at tbl (S j))
  | FellThrough => True
  | _ => False
  end.
Proof.
  induction todo as [|todo IH]; intros i; [exact I|].
  simpl. destruct (fge t _ && fle t _) eqn:E.
  - apply andb_true_iff in E. destruct E as [E1 E2].
    apply fge_iff in E1. apply fle_iff in E2.
    split; [lia | split; assumption].
  - specialize (IH (S i)).
    destruct (scan_branch tbl t (S i) todo); try exact IH.
    destruct IH as [Hr Ht]. split; [lia | exact Ht].
Qed.

(** What is known of the temperature in each branch. *)
Lemma branch_of_inv tbl t :
  match branch_of tbl t with
  | AtOrBelowZero => t <= 0
  | OnRamp => 0 < t <= temp_of (point_at tbl 0)
  | OnClamp => 0 < t
  | InInterval j =>
      (j < 4)%nat /\ 0 < t
      /\ temp_of (point_at tbl j) <= t <= temp_of (point_at tbl (S j))
  | FellThrough => True
  end.
Proof.
  unfold branch_of.
  cmp_case (fle t 0) Hzero; [exact Hzero|].
  cmp_case (fle t (temp_of (point_at tbl 0))) Hfirst; [split; assumption|].
  destruct (fge t (temp_of (point_at tbl 4))); [exact Hzero|].
  pose proof (scan_branch_inv tbl t (TABLE_POINTS - 1) 0) as H.
  destruct (scan_branch tbl t 0 (TABLE_POINTS - 1)); try contradiction; [|exact I].
  destruct H as [Hr Ht]. unfold TABLE_POINTS in Hr. simpl in Hr.
  split; [lia | split; assumption].
Qed.

(** *** One return at a time *)

Lemma ramp_mono first t t' :
  0 <= fanLevel_f first -> 0 <= temp_of first ->
  t <= t' -> ramp first t <= ramp first t'.
Proof.
  intros Hf Ht Hle. unfold ramp. cbv zeta.
  assert (Hm : 0 <= round32 (fanLevel_f first / temp_of first)).
  { apply round32_nonneg.
    destruct (Qlt_le_dec 0 (temp_of first)) as [Hpos | Hz].
    - apply Qle_shift_div_l; [exact Hpos | lra].
    - assert (E : temp_of first == 0) by lra.
      rewrite E. unfold Qdiv. change (/ 0) with 0. rewrite Qmult_0_r.
      apply Qle_refl. }
  apply round32_mono.
  rewrite !(Qmult_comm (round32 _)). apply Qmult_le_compat_r; assumption.
Qed.

Lemma ramp_nonneg first t :
  0 <= fanLevel_f first -> 0 <= temp_of first -> 0 <= t -> 0 <= ramp first t.
Proof.
  intros Hf Ht Hpos.
  apply Qle_trans with (ramp first 0); [|apply ramp_mono; assumption].
  unfold ramp. cbv zeta. apply round32_nonneg. rewrite Qmult_0_r. lra.
Qed.

Section Interval.
Variables current next : TemperaturePoint.
Hypothesis Hlevels : fanLevel_f current <= fanLevel_f next.

Local Abbreviation tempDiff :=
  (round32 (inject_Z (int32 (temperature_c next - temperature_c current)))).
Local Abbreviation slope :=
  (round32 (round32 (fanLevel_f next - fanLevel_f current) / tempDiff)).

(** The rounded slope of a rising interval is not negative. *)
Lemma slope_nonneg : 0 < tempDiff -> 0 <= slope.
Proof.
  intros Hd. apply round32_nonneg.
  apply Qle_shift_div_l; [exact Hd|]. rewrite Qmult_0_l.
  apply round32_nonneg. lra.
Qed.

Lemma interpolate_mono t t' :
  t <= t' -> interpolate current next t <= interpolate current next t'.
Proof.
  intros Hle. unfold interpolate. cbv zeta.
  cmp_case (fle tempDiff 0) Hd; [apply Qle_refl|].
  pose proof (slope_nonneg Hd) as Hm.
  apply round32_mono. apply Qplus_le_compat; [|apply Qle_refl].
  apply round32_mono.
  rewrite !(Qmult_comm slope). apply Qmult_le_compat_r; assumption.
Qed.

Lemma interpolate_nonneg t :
  0 <= fanLevel_f current ->
  temp_of current <= t ->
  0 <= interpolate current next t.
Proof.
  intros Hf Ht. unfold interpolate. cbv zeta.
  cmp_case (fle tempDiff 0) Hd; [exact Hf|].
  pose proof (slope_nonneg Hd) as Hm.
  set (A := round32 (slope * temp_of current)).
  assert (HA : A <= round32 (slope * t)).
  { apply round32_mono.
    rewrite !(Qmult_comm slope). apply Qmult_le_compat_r; assumption. }
  assert (Hq : - A <= round32 (fanLevel_f current - A)).
  { assert (E : - A == round32 (- A)).
    { rewrite round32_opp. unfold A. rewrite round32_idem. reflexivity. }
    rewrite E. apply round32_mono. lra. }
  apply round32_nonneg. lra.
Qed.
End Interval.

(** The duty cycles of a valid, non-decreasing curve, point by point. *)
Lemma valid_levels tbl :
  valid_curve tbl = true ->
  nondecreasing_levels tbl = true ->
  forall j, (j < 5)%nat ->
    0 <= fanLevel_f (point_at tbl j)
    /\ ((j < 4)%nat ->
        fanLevel_f (point_at tbl j) <= fanLevel_f (point_at tbl (S j))).
Proof.
  intros Hvalid Hnd. unfold valid_curve in Hvalid.
  apply andb_true_iff in Hvalid. destruct Hvalid as [Hshape Hrange].
  destruct (curve_shape_inv tbl Hshape)
    as (p0 & p1 & p2 & p3 & p4 & -> & _).
  simpl in Hrange, Hnd.
  repeat match goal with
         | H : _ && _ = true |- _ =>
             apply andb_true_iff in H;
             let Ha := fresh "Ha" in let Hb := fresh "Hb" in
             destruct H as [Ha Hb]
         end.
  repeat match goal with
         | H : fle _ _ = true |- _ => apply fle_iff in H
         end.
  intros j Hj.
  destruct j as [|[|[|[|[|j]]]]]; try lia;
    unfold point_at; simpl nth; (split; [assumption | intros; try lia; assumption]).
Qed.

(** On a valid curve with non-decreasing duty cycles every return is
    non-negative. *)
Lemma branch_value_nonneg tbl t :
  valid_curve tbl = true ->
  nondecreasing_levels tbl = true ->
  0 <= branch_value tbl t (branch_of tbl t).
Proof.
  intros Hvalid Hnd.
  pose proof (valid_levels tbl Hvalid Hnd) as Hlev.
  pose proof (branch_of_inv tbl t) as Hb.
  destruct (branch_of tbl t) as [| | |j|]; simpl.
  - lra.
  - destruct Hb as [Hpos Hle].
    apply ramp_nonneg; [apply (Hlev 0%nat); lia | lra | lra].
  - apply (Hlev 4%nat). lia.
  - destruct Hb as (Hj & Hpos & Hlo & Hhi).
    destruct (Hlev j ltac:(lia)) as [H0 Hup].
    apply interpolate_nonneg; [apply Hup, Hj | exact H0 | exact Hlo].
  - lra.
Qed.

(** C8, counterexample: on a valid curve with non-decreasing duty cycles
    the evaluator returns more at 70 degrees, the upper end of the
    interval from 60 to 70, than at 75 degrees in the next interval: the
    rounded slope and intercept of the first interval overshoot the duty
    cycle 1 of the point at 70 by one unit in the last place. *)
Lemma evaluator_steps_down_after_breakpoint :
  valid_curve steep_table = true
  /\ nondecreasing_levels steep_table = true
  /\ 70 <= 75
  /\ CalculateFanLevel (Some steep_table) 70 = 4194305 # 4194304
  /\ CalculateFanLevel (Some steep_table) 75 = 1
  /\ ~ CalculateFanLevel (Some steep_table) 70
       <= CalculateFanLevel (Some steep_table) 75.
Proof.
  split; [vm_compute; reflexivity|]. split; [vm_compute; reflexivity|].
  split; [vm_compute; discriminate|].
  split; [vm_compute; reflexivity|]. split; [vm_compute; reflexivity|].
  vm_compute. intros H. apply H. reflexivity.
Qed.

(** C8, as the code has it: on a valid curve (five points, temperatures
    strictly increasing, duty cycles fractions in [0, 1]) whose duty
    cycles do not decrease with the temperature, [t1 <= t2] gives
    [evaluate t1 <= evaluate t2] whenever [t1] is at or below 0 or the
    same [return] answers for both temperatures: both on the ramp below
    the first point, both in the same interval of the scan, or both at or
    above the last point.  Every operation rounds to [float] here;
    between two different pieces the rounding can make the value step
    down. *)
Theorem CalculateFanLevel_monotone_on_branch (tbl : Table) (t1 t2 : Q) :
  valid_curve tbl = true ->
  nondecreasing_levels tbl = true ->
  t1 <= t2 ->
  t1 <= 0 \/ branch_of tbl t1 = branch_of tbl t2 ->
  CalculateFanLevel (Some tbl) t1 <= CalculateFanLevel (Some tbl) t2.
Proof.
  intros Hvalid Hnd Hle Hsame.
  pose proof (valid_levels tbl Hvalid Hnd) as Hlev.
  rewrite !CalculateFanLevel_by_branch.
  destruct Hsame as [Hzero | Hsame].
  - assert (E : branch_of tbl t1 = AtOrBelowZero).
    { unfold branch_of. apply fle_iff in Hzero. rewrite Hzero. reflexivity. }
    rewrite E. simpl. apply branch_value_nonneg; assumption.
  - pose proof (branch_of_inv tbl t1) as Hb1.
    rewrite <- Hsame.
    destruct (branch_of tbl t1) as [| | |j|]; simpl.
    + apply Qle_refl.
    + destruct Hb1 as [Hpos Hfirst].
      apply ramp_mono; [apply (Hlev 0%nat); lia | lra | exact Hle].
    + apply Qle_refl.
    + destruct Hb1 as (Hj & _).
      apply interpolate_mono; [|exact Hle].
      apply (Hlev j); lia.
    + apply Qle_refl.
Qed.

Lemma CalculateFanLevel_monotone_on_branch_witness :
  CalculateFanLevel (Some steep_table) 62
  <= CalculateFanLevel (Some steep_table) 70.
Proof.
  apply (CalculateFanLevel_monotone_on_branch steep_table 62 70).
  - vm_compute. reflexivity.
  - vm_compute. reflexivity.
  - vm_compute. discriminate.
  - right. vm_compute. reflexivity.
Defined.

(** X7: on a valid curve whose duty cycles do not decrease with the
    temperature the evaluator never returns a negative duty cycle, at any
    temperature, with every operation rounded to [float].  (It can return
    more than 1: the steep curve above gives 4194305/4194304 at 70
    degrees.) *)
Theorem CalculateFanLevel_never_negative (tbl : Table) (t : Q) :
  valid_curve tbl = true ->
  nondecreasing_levels tbl = true ->
  0 <= CalculateFanLevel (Some tbl) t.
Proof.
  intros Hvalid Hnd. rewrite CalculateFanLevel_by_branch.
  apply branch_value_nonneg; assumption.
Qed.

Lemma CalculateFanLevel_never_negative_witness :
  0 <= CalculateFanLevel (Some defaultTable) 55.
Proof.
  apply (CalculateFanLevel_never_negative defaultTable 55).
  - vm_compute. reflexivity.
  - vm_compute. reflexivity.
Defined.

(** The evaluator on the default curve: one unit in the last place below
    the point's duty cycle at 20 and at 40 degrees. *)
Example defaultTable_samples :
  CalculateFanLevel (Some defaultTable) 20 = 3355443 # 33554432
  /\ fanLevel_f (point_at defaultTable 0) = 13421773 # 134217728
  /\ CalculateFanLevel (Some defaultTable) 40 = 16777215 # 33554432
  /\ CalculateFanLevel (Some defaultTable) 0 = 0.
Proof. repeat split; vm_compute; reflexivity. Qed.

(** ** The configuration store: further properties *)

Lemma fread_table_full buf content :
  List.length buf = TABLE_POINTS ->
  (TABLE_POINTS <= List.length content)%nat ->
  fread_table buf content = (firstn TABLE_POINTS content, 1%Z).
Proof.
  intros Hbuf Hlen. unfold fread_table.
  assert (E : (TABLE_POINTS <=? List.length content)%nat = true)
    by (apply Nat.leb_le; exact Hlen).
  rewrite E. f_equal.
  rewrite skipn_all2; [apply app_nil_r|].
  rewrite length_firstn. lia.
Qed.

Lemma saves_InitLog w : saves (io_trace (InitLog w)) = saves (io_trace w).
Proof. simpl. rewrite saves_app. simpl. apply app_nil_r. Qed.

Lemma saves_WriteLog msg w :
  saves (io_trace (WriteLog msg w)) = saves (io_trace w).
Proof. simpl. rewrite saves_app. simpl. apply app_nil_r. Qed.

(** The load of a file that is there, in a directory that is there. *)
Lemma ReadConfigFile_present w content :
  heap_ok w = true ->
  dir_exists w = true ->
  config_file w = Some content ->
  snd (ReadConfigFile w)
    = Some (if fopen_ok w && (TABLE_POINTS <=? List.length content)%nat
            then firstn TABLE_POINTS content else defaultTable)
  /\ saves (io_trace (fst (ReadConfigFile w))) = saves (io_trace w)
  /\ config_file (fst (ReadConfigFile w)) = Some content
  /\ dir_exists (fst (ReadConfigFile w)) = true
  /\ heap_ok (fst (ReadConfigFile w)) = true
  /\ fopen_ok (fst (ReadConfigFile w)) = fopen_ok w.
Proof.
  intros Hh Hd Hc. unfold ReadConfigFile.
  change (heap_ok (InitLog w)) with (heap_ok w).
  change (dir_exists (InitLog w)) with (dir_exists w).
  change (config_file (InitLog w)) with (config_file w).
  change (fopen_ok (InitLog w)) with (fopen_ok w).
  rewrite Hh, Hd, Hc. cbn [negb].
  destruct (TABLE_POINTS <=? List.length content)%nat eqn:E;
    destruct (fopen_ok w) eqn:Hf; cbn [andb].
  - apply Nat.leb_le in E.
    rewrite (fread_table_full defaultTable content eq_refl E).
    cbn [Z.eqb Pos.eqb fst snd].
    rewrite saves_WriteLog, saves_InitLog.
    repeat split; try reflexivity; first [exact Hc | exact Hd | exact Hh | exact Hf].
  - cbn [fst snd]. rewrite saves_InitLog.
    repeat split; try reflexivity; first [exact Hc | exact Hd | exact Hh | exact Hf].
  - unfold fread_table. rewrite E. cbn [Z.eqb fst snd].
    rewrite saves_WriteLog, saves_InitLog.
    repeat split; try reflexivity; first [exact Hc | exact Hd | exact Hh | exact Hf].
  - cbn [fst snd]. rewrite saves_InitLog.
    repeat split; try reflexivity; first [exact Hc | exact Hd | exact Hh | exact Hf].
Qed.

(** The load when the directory or the file is missing and the store can
    be written. *)
Lemma ReadConfigFile_absent_writable w :
  heap_ok w = true ->
  store_writable w = true ->
  dir_exists w = false \/ config_file w = None ->
  snd (ReadConfigFile w) = Some defaultTable
  /\ config_file (fst (ReadConfigFile w)) = Some defaultTable
  /\ dir_exists (fst (ReadConfigFile w)) = true
  /\ heap_ok (fst (ReadConfigFile w)) = true
  /\ fopen_ok (fst (ReadConfigFile w)) = true.
Proof.
  destruct w as [h d m f o tr]. unfold store_writable. simpl.
  intros -> Hw Habs.
  apply andb_true_iff in Hw. destruct Hw as [Hdm ->].
  destruct d; simpl in Hdm.
  - destruct Habs as [Habs | ->]; [discriminate|].
    repeat split; reflexivity.
  - subst m. repeat split; reflexivity.
Qed.

(** What [WriteConfigFile(table)] leaves behind on a writable store. *)
Lemma WriteConfigFile_writable t w :
  heap_ok w = true ->
  store_writable w = true ->
  config_file (WriteConfigFile (Some t) w) = Some (firstn TABLE_POINTS t)
  /\ dir_exists (WriteConfigFile (Some t) w) = true
  /\ heap_ok (WriteConfigFile (Some t) w) = true
  /\ fopen_ok (WriteConfigFile (Some t) w) = true.
Proof.
  destruct w as [h d m f o tr]. unfold store_writable. simpl.
  intros -> Hw. apply andb_true_iff in Hw. destruct Hw as [Hdm ->].
  unfold WriteConfigFile.
  destruct d; simpl in Hdm; [|subst m]; repeat split; reflexivity.
Qed.

(** X1: a curve of five points saved with [WriteConfigFile] is what the
    next [ReadConfigFile] returns, and that load makes no save of its
    own. *)
Theorem load_after_save_roundtrip (t : Table) (w : World) :
  List.length t = TABLE_POINTS ->
  heap_ok w = true ->
  store_writable w = true ->
  snd (ReadConfigFile (WriteConfigFile (Some t) w)) = Some t
  /\ saves (io_trace (fst (ReadConfigFile (WriteConfigFile (Some t) w))))
     = saves (io_trace w) ++ [Some t].
Proof.
  intros Hlen Hh Hw.
  destruct (WriteConfigFile_writable t w Hh Hw) as (Hc & Hd & Hh' & Hf).
  rewrite <- Hlen, firstn_all in Hc.
  destruct (ReadConfigFile_present _ t Hh' Hd Hc) as (Hr & Hs & _).
  rewrite Hr, Hs, Hf, saves_WriteConfigFile.
  assert (E : (TABLE_POINTS <=? List.length t)%nat = true)
    by (apply Nat.leb_le; lia).
  rewrite E. cbn [andb]. rewrite <- Hlen, firstn_all. split; reflexivity.
Qed.

Lemma load_after_save_roundtrip_witness :
  snd (ReadConfigFile (WriteConfigFile (Some frost_table) fresh_world))
  = Some frost_table.
Proof.
  apply (load_after_save_roundtrip frost_table fresh_world); reflexivity.
Defined.

(** X2: [ReadConfigFile] yields NULL exactly when the allocation fails,
    and then it neither saves nor touches the file; otherwise the table
    it yields has exactly five points, whatever the file holds. *)
Theorem load_result_shape (w : World) :
  match snd (ReadConfigFile w) with
  | None =>
      heap_ok w = false
      /\ config_file (fst (ReadConfigFile w)) = config_file w
      /\ saves (io_trace (fst (ReadConfigFile w))) = saves (io_trace w)
  | Some t => heap_ok w = true /\ List.length t = TABLE_POINTS
  end.
Proof.
  destruct (heap_ok w) eqn:Hh.
  - destruct (dir_exists w) eqn:Hd.
    + destruct (config_file w) as [content|] eqn:Hc.
      * destruct (ReadConfigFile_present w content Hh Hd Hc) as (Hr & _).
        rewrite Hr. split; [reflexivity|].
        destruct (fopen_ok w && _) eqn:E; [|reflexivity].
        apply andb_true_iff in E. destruct E as [_ E].
        apply Nat.leb_le in E. rewrite length_firstn. lia.
      * unfold ReadConfigFile.
        change (heap_ok (InitLog w)) with (heap_ok w).
        change (dir_exists (InitLog w)) with (dir_exists w).
        change (config_file (InitLog w)) with (config_file w).
        rewrite Hh, Hd, Hc. cbn [negb snd]. split; reflexivity.
    + unfold ReadConfigFile.
      change (heap_ok (InitLog w)) with (heap_ok w).
      change (dir_exists (InitLog w)) with (dir_exists w).
      rewrite Hh, Hd. cbn [negb snd]. split; reflexivity.
  - unfold ReadConfigFile.
    change (heap_ok (InitLog w)) with (heap_ok w).
    rewrite Hh. cbn [negb fst snd].
    split; [reflexivity|]. split; [reflexivity|].
    rewrite saves_WriteLog, saves_InitLog. reflexivity.
Qed.

(** X3: a file with five records or more is loaded as its first five
    records, unchecked: what follows them is ignored, nothing requires
    them to form a curve, and the load neither saves nor changes the
    file. *)
Theorem load_takes_first_five_unchecked (w : World) (content : Table) :
  heap_ok w = true ->
  dir_exists w = true ->
  fopen_ok w = true ->
  config_file w = Some content ->
  (TABLE_POINTS <= List.length content)%nat ->
  snd (ReadConfigFile w) = Some (firstn TABLE_POINTS content)
  /\ saves (io_trace (fst (ReadConfigFile w))) = saves (io_trace w)
  /\ config_file (fst (ReadConfigFile w)) = Some content.
Proof.
  intros Hh Hd Hf Hc Hlen.
  destruct (ReadConfigFile_present w content Hh Hd Hc) as (Hr & Hs & Hc' & _).
  rewrite Hr, Hf. apply Nat.leb_le in Hlen. rewrite Hlen.
  split; [reflexivity|]. split; assumption.
Qed.

Lemma load_takes_first_five_unchecked_witness :
  snd (ReadConfigFile descending_file_world)
  = Some [ mkPoint 90 1; mkPoint 70 (1 # 2); mkPoint 50 (1 # 4);
           mkPoint 30 (1 # 8); mkPoint 10 0 ]
  /\ curve_shape [ mkPoint 90 1; mkPoint 70 (1 # 2); mkPoint 50 (1 # 4);
                   mkPoint 30 (1 # 8); mkPoint 10 0 ] = false.
Proof.
  split; [|reflexivity].
  apply (load_takes_first_five_unchecked descending_file_world
           [ mkPoint 90 1; mkPoint 70 (1 # 2); mkPoint 50 (1 # 4);
             mkPoint 30 (1 # 8); mkPoint 10 0; mkPoint 5 0 ]).
  - reflexivity.
  - reflexivity.
  - reflexivity.
  - reflexivity.
  - unfold TABLE_POINTS. simpl. lia.
Defined.

(** X4: on a writable store a second [ReadConfigFile] returns the table
    the first one returned and makes no save: after the first load the
    file is there, so only the first load can write it. *)
Theorem load_twice_same_table (w : World) :
  heap_ok w = true ->
  store_writable w = true ->
  snd (ReadConfigFile (fst (ReadConfigFile w))) = snd (ReadConfigFile w)
  /\ saves (io_trace (fst (ReadConfigFile (fst (ReadConfigFile w)))))
     = saves (io_trace (fst (ReadConfigFile w))).
Proof.
  intros Hh Hw.
  assert (Hcases : (dir_exists w = false \/ config_file w = None)
                   \/ (dir_exists w = true
                       /\ exists content, config_file w = Some content)).
  { destruct (dir_exists w); [|left; left; reflexivity].
    destruct (config_file w) as [content|]; [|left; right; reflexivity].
    right. split; [reflexivity | exists content; reflexivity]. }
  destruct Hcases as [Habs | [Hd [content Hc]]].
  - destruct (ReadConfigFile_absent_writable w Hh Hw Habs)
      as (Hr & Hc' & Hd' & Hh' & Hf').
    destruct (ReadConfigFile_present _ defaultTable Hh' Hd' Hc')
      as (Hr2 & Hs2 & _).
    rewrite Hr2, Hs2, Hr, Hf'. split; reflexivity.
  - destruct (ReadConfigFile_present w content Hh Hd Hc)
      as (Hr & Hs & Hc' & Hd' & Hh' & Hf').
    destruct (ReadConfigFile_present _ content Hh' Hd' Hc')
      as (Hr2 & Hs2 & _).
    rewrite Hr2, Hs2, Hr, Hf'. split; reflexivity.
Qed.

Lemma load_twice_same_table_witness :
  snd (ReadConfigFile (fst (ReadConfigFile fresh_world))) = Some defaultTable
  /\ saves (io_trace (fst (ReadConfigFile (fst (ReadConfigFile fresh_world)))))
     = [None].
Proof.
  destruct (load_twice_same_table fresh_world) as [Ht Hs];
    [reflexivity | reflexivity |].
  rewrite Ht, Hs. split; reflexivity.
Defined.

(** ** The scheduler: further properties *)

(** The scheduler below the elevated threshold with the suspended flag
    clear, in one equation. *)
Lemma CalculateAdaptiveSleepTime_normal g t f :
  fge t EMERGENCY_TEMP_THRESHOLD = false ->
  systemInSleepMode g = false ->
  CalculateAdaptiveSleepTime g t f
  = let c := if reading_stable g t f
             then u32 (stableReadings g + 1) else 0%Z in
    (set_stableReadings c (set_thermalEmergency false g),
     if (STABLE_READINGS_FOR_SLOWDOWN <=? c)%Z then LONG_SLEEP_INTERVAL
     else if flt (tempChange_of g t) (TEMP_CHANGE_THRESHOLD * 2)
          then NORMAL_SLEEP_INTERVAL
          else (NORMAL_SLEEP_INTERVAL / 2)%Z).
Proof.
  intros He Hs. unfold CalculateAdaptiveSleepTime.
  assert (Hc : fge t CRITICAL_TEMP_THRESHOLD = false).
  { apply fge_false_iff. apply fge_false_iff in He.
    unfold CRITICAL_TEMP_THRESHOLD, EMERGENCY_TEMP_THRESHOLD in *. lra. }
  rewrite Hc, He. cbn [systemInSleepMode set_thermalEmergency]. rewrite Hs.
  cbv zeta.
  change (reading_stable (set_thermalEmergency false g) t f)
    with (reading_stable g t f).
  change (tempChange_of (set_thermalEmergency false g) t)
    with (tempChange_of g t).
  destruct (reading_stable g t f);
    cbn [stableReadings set_stableReadings set_thermalEmergency];
    destruct (STABLE_READINGS_FOR_SLOWDOWN <=? _)%Z; try reflexivity;
    destruct (flt _ _); reflexivity.
Qed.

(** X8: the scheduler writes two variables only, the emergency flag and
    the stability counter; the table, the exit and suspended flags, the
    stored interval and the last temperature and duty are left for its
    caller to update. *)
Theorem scheduler_frame (g : Globals) (t f : Q) :
  let g' := fst (CalculateAdaptiveSleepTime g t f) in
  fanControllerTable g' = fanControllerTable g
  /\ fanControllerThreadExit g' = fanControllerThreadExit g
  /\ systemInSleepMode g' = systemInSleepMode g
  /\ currentSleepTime g' = currentSleepTime g
  /\ lastTemperature g' = lastTemperature g
  /\ lastFanLevel g' = lastFanLevel g
  /\ checkCounter g' = checkCounter g.
Proof.
  cbv zeta. unfold CalculateAdaptiveSleepTime.
  destruct (fge t CRITICAL_TEMP_THRESHOLD); [repeat split|].
  destruct (fge t EMERGENCY_TEMP_THRESHOLD); [repeat split|].
  destruct (systemInSleepMode (set_thermalEmergency false g));
    [repeat split|].
  cbv zeta.
  set (g2 := if reading_stable _ t f then _ else _).
  assert (Hg2 : g2 = set_stableReadings (stableReadings g2)
                       (set_thermalEmergency false g)).
  { subst g2. destruct (reading_stable _ t f); reflexivity. }
  destruct (_ <=? _)%Z; [|destruct (flt _ _)];
    cbn [fst]; rewrite Hg2; repeat split.
Qed.



(** X10: the counter wraps.  At 2^32 - 1 one more stable reading (below
    the elevated threshold, suspended flag clear) takes it to 0, and the
    interval falls back from the relaxed 30 s to 10 s. *)
Theorem counter_wrap_drops_relaxed_interval (g : Globals) (t f : Q) :
  stableReadings g = (2 ^ 32 - 1)%Z ->
  t < EMERGENCY_TEMP_THRESHOLD ->
  systemInSleepMode g = false ->
  reading_stable g t f = true ->
  stableReadings (fst (CalculateAdaptiveSleepTime g t f)) = 0%Z
  /\ snd (CalculateAdaptiveSleepTime g t f) = NORMAL_SLEEP_INTERVAL.
Proof.
  intros Hc Ht Hs Hst. apply fge_false_iff in Ht.
  rewrite (CalculateAdaptiveSleepTime_normal g t f Ht Hs).
  rewrite Hst, Hc. cbv zeta.
  change (u32 (2 ^ 32 - 1 + 1)) with 0%Z.
  cbn [fst snd stableReadings set_stableReadings].
  split; [reflexivity|].
  assert (E4 : flt (tempChange_of g t) (TEMP_CHANGE_THRESHOLD * 2) = true).
  { apply flt_iff. unfold reading_stable in Hst.
    apply andb_true_iff in Hst. destruct Hst as [Hst _].
    apply flt_iff in Hst.
    unfold tempChange_of, TEMP_CHANGE_THRESHOLD in *.
    setoid_replace (2 * 2) with 4 by reflexivity. lra. }
  rewrite E4. reflexivity.
Qed.

Lemma counter_wrap_drops_relaxed_interval_witness :
  stableReadings
    (fst (CalculateAdaptiveSleepTime full_counter_state 30 (3 # 10))) = 0%Z
  /\ snd (CalculateAdaptiveSleepTime full_counter_state 30 (3 # 10))
     = NORMAL_SLEEP_INTERVAL.
Proof.
  apply (counter_wrap_drops_relaxed_interval full_counter_state 30 (3 # 10));
    reflexivity.
Defined.

(** X11: the emergency tests come before the suspended test.  From 80 up
    to, but not including, 90 degrees the scheduler sets the emergency
    flag and returns 2 s, suspended or not, and leaves the counter alone;
    below 80 with the suspended flag set it clears the emergency flag and
    returns 5 minutes, again without touching the counter. *)
Theorem emergency_preempts_suspension (g : Globals) (t f : Q) :
  (EMERGENCY_TEMP_THRESHOLD <= t < CRITICAL_TEMP_THRESHOLD ->
     CalculateAdaptiveSleepTime g t f
     = (set_thermalEmergency true g, 2000000000%Z))
  /\ (t < EMERGENCY_TEMP_THRESHOLD ->
      systemInSleepMode g = true ->
      CalculateAdaptiveSleepTime g t f
      = (set_thermalEmergency false g, 300000000000%Z)).
Proof.
  split.
  - intros [Hlo Hhi]. unfold CalculateAdaptiveSleepTime.
    apply fge_false_iff in Hhi. apply fge_iff in Hlo.
    rewrite Hhi, Hlo. reflexivity.
  - intros Ht Hs. unfold CalculateAdaptiveSleepTime.
    assert (Hc : fge t CRITICAL_TEMP_THRESHOLD = false).
    { apply fge_false_iff.
      unfold CRITICAL_TEMP_THRESHOLD, EMERGENCY_TEMP_THRESHOLD in *. lra. }
    apply fge_false_iff in Ht. rewrite Hc, Ht.
    cbn [systemInSleepMode set_thermalEmergency]. rewrite Hs. reflexivity.
Qed.

Lemma emergency_preempts_suspension_witness :
  CalculateAdaptiveSleepTime suspended_state 85 (9 # 10)
    = (set_thermalEmergency true suspended_state, 2000000000%Z)
  /\ CalculateAdaptiveSleepTime suspended_state 30 (3 # 10)
     = (set_thermalEmergency false suspended_state, 300000000000%Z).
Proof.
  split.
  - apply (emergency_preempts_suspension suspended_state 85 (9 # 10)).
    split; [vm_compute; discriminate | reflexivity].
  - apply (emergency_preempts_suspension suspended_state 30 (3 # 10));
      reflexivity.
Defined.

(** ** The control loop: further properties *)

Lemma thermalEmergency_sched g t f :
  thermalEmergency (fst (CalculateAdaptiveSleepTime g t f))
  = fge t EMERGENCY_TEMP_THRESHOLD.
Proof.
  unfold CalculateAdaptiveSleepTime.
  cmp_case (fge t CRITICAL_TEMP_THRESHOLD) Hc.
  - symmetry. apply fge_iff.
    unfold CRITICAL_TEMP_THRESHOLD, EMERGENCY_TEMP_THRESHOLD in *. lra.
  - destruct (fge t EMERGENCY_TEMP_THRESHOLD); [reflexivity|].
    destruct (systemInSleepMode (set_thermalEmergency false g)); [reflexivity|].
    cbv zeta.
    set (g2 := if reading_stable _ t f then _ else _).
    assert (Hg2 : thermalEmergency g2 = false).
    { subst g2. destruct (reading_stable _ t f); reflexivity. }
    destruct (_ <=? _)%Z; [exact Hg2|]. destruct (flt _ _); exact Hg2.
Qed.

Lemma fanControllerTable_sched g t f :
  fanControllerTable (fst (CalculateAdaptiveSleepTime g t f))
  = fanControllerTable g.
Proof.
  unfold CalculateAdaptiveSleepTime.
  destruct (fge t CRITICAL_TEMP_THRESHOLD); [reflexivity|].
  destruct (fge t EMERGENCY_TEMP_THRESHOLD); [reflexivity|].
  destruct (systemInSleepMode (set_thermalEmergency false g)); [reflexivity|].
  cbv zeta.
  set (g2 := if reading_stable _ t f then _ else _).
  assert (Hg2 : fanControllerTable g2 = fanControllerTable g).
  { subst g2. destruct (reading_stable _ t f); reflexivity. }
  destruct (_ <=? _)%Z; [exact Hg2|]. destruct (flt _ _); exact Hg2.
Qed.

Lemma LoopIteration_after_probe inp g :
  LoopIteration inp g = ControlTick inp (after_probe g).
Proof. reflexivity. Qed.

(** The state a good reading leaves, field by field. *)
Lemma LoopIteration_good_state t ok g :
  let f := CalculateFanLevel (fanControllerTable g) t in
  let g' := fst (LoopIteration (mkTick (Some t) ok) g) in
  lastTemperature g' = t
  /\ lastFanLevel g' = f
  /\ thermalEmergency g' = fge t EMERGENCY_TEMP_THRESHOLD
  /\ fanControllerTable g' = fanControllerTable g
  /\ currentSleepTime g' = snd (CalculateAdaptiveSleepTime (after_probe g) t f).
Proof.
  cbv zeta. rewrite LoopIteration_after_probe, ControlTick_globals.
  unfold sched_step. cbn [fst snd].
  change (fanControllerTable (after_probe g)) with (fanControllerTable g).
  pose proof (thermalEmergency_sched (after_probe g) t
                (CalculateFanLevel (fanControllerTable g) t)) as He.
  pose proof (fanControllerTable_sched (after_probe g) t
                (CalculateFanLevel (fanControllerTable g) t)) as Ht.
  destruct (CalculateAdaptiveSleepTime (after_probe g) t _) as [g1 iv].
  cbn [fst snd] in *. repeat split; assumption.
Qed.

Lemma sleeps_app tr1 tr2 : sleeps (tr1 ++ tr2) = sleeps tr1 ++ sleeps tr2.
Proof. unfold sleeps. apply flat_map_app. Qed.

(** The one sleep of an iteration. *)
Lemma LoopIteration_sleeps inp g :
  sleeps (snd (LoopIteration inp g))
  = [match sensor inp with
     | None => NORMAL_SLEEP_INTERVAL
     | Some t =>
         snd (CalculateAdaptiveSleepTime (after_probe g) t
                (CalculateFanLevel (fanControllerTable g) t))
     end].
Proof.
  rewrite LoopIteration_after_probe. destruct inp as [[t|] ok]; [|reflexivity].
  unfold ControlTick. cbn [sensor device_ok].
  change (fanControllerTable (after_probe g)) with (fanControllerTable g).
  destruct (CalculateAdaptiveSleepTime (after_probe g) t _) as [g1 iv].
  cbn [snd]. rewrite sleeps_app.
  destruct (shouldUpdateFan _ _); [destruct ok|]; reflexivity.
Qed.

(** With the suspended flag clear the scheduler returns one of five
    intervals. *)
Lemma awake_interval g t f :
  systemInSleepMode g = false ->
  In (snd (CalculateAdaptiveSleepTime g t f)) loop_intervals.
Proof.
  intros Hs. unfold CalculateAdaptiveSleepTime.
  destruct (fge t CRITICAL_TEMP_THRESHOLD); [simpl; tauto|].
  destruct (fge t EMERGENCY_TEMP_THRESHOLD); [simpl; tauto|].
  cbn [systemInSleepMode set_thermalEmergency]. rewrite Hs. cbv zeta.
  destruct (_ <=? _)%Z; [simpl; tauto|].
  destruct (flt _ _); simpl; tauto.
Qed.

(** X12: every iteration of the loop sleeps exactly once, and only for
    1, 2, 5, 10 or 30 seconds: the probe stub always reports the active
    state, so the 5-minute interval of the scheduler is never slept. *)
Theorem loop_sleeps_once_per_iteration (inps : list TickInput) (g : Globals) :
  List.length (sleeps (snd (RunLoop inps g))) = List.length inps
  /\ Forall (fun ns => In ns loop_intervals) (sleeps (snd (RunLoop inps g)))
  /\ ~ In SLEEP_MODE_INTERVAL (sleeps (snd (RunLoop inps g))).
Proof.
  assert (H : List.length (sleeps (snd (RunLoop inps g))) = List.length inps
              /\ Forall (fun ns => In ns loop_intervals)
                        (sleeps (snd (RunLoop inps g)))).
  { revert g. induction inps as [|inp rest IH]; intros g.
    - split; [reflexivity | constructor].
    - simpl RunLoop.
      pose proof (LoopIteration_sleeps inp g) as Hs.
      destruct (LoopIteration inp g) as [g1 tr1]. cbn [snd] in Hs.
      specialize (IH g1). destruct (RunLoop rest g1) as [g2 tr2].
      cbn [snd] in *. rewrite sleeps_app, Hs. destruct IH as [IHl IHf].
      split; [simpl; rewrite IHl; reflexivity|].
      simpl. constructor; [|exact IHf].
      destruct (sensor inp) as [t|].
      + apply awake_interval. reflexivity.
      + simpl. tauto. }
  destruct H as [Hl Hf]. split; [exact Hl|]. split; [exact Hf|].
  intros Hin. rewrite Forall_forall in Hf. specialize (Hf _ Hin).
  simpl in Hf. repeat (destruct Hf as [Hf | Hf]; [discriminate|]).
  contradiction.
Qed.

(** X13: an iteration with a good reading stores the reading and the
    duty cycle computed from it as the last values, and the interval it
    sleeps as the current one, whether the duty was written to the device,
    was not written, or the write failed: the state it leaves does not
    depend on the device's answer. *)
Theorem good_tick_stores_reading (g : Globals) (t : Q) (ok : bool) :
  let g' := fst (LoopIteration (mkTick (Some t) ok) g) in
  lastTemperature g' = t
  /\ lastFanLevel g' = CalculateFanLevel (fanControllerTable g) t
  /\ sleeps (snd (LoopIteration (mkTick (Some t) ok) g)) = [currentSleepTime g']
  /\ g' = fst (LoopIteration (mkTick (Some t) (negb ok)) g).
Proof.
  cbv zeta.
  destruct (LoopIteration_good_state t ok g) as (Ht & Hf & _ & _ & Hc).
  split; [exact Ht|]. split; [exact Hf|]. split.
  - rewrite LoopIteration_sleeps, Hc. reflexivity.
  - rewrite !LoopIteration_after_probe, !ControlTick_globals. reflexivity.
Qed.

Lemma failed_ticks_keep_flags fails : forall g,
  Forall (fun inp => sensor inp = None) fails ->
  thermalEmergency (fst (RunLoop fails g)) = thermalEmergency g
  /\ lastFanLevel (fst (RunLoop fails g)) = lastFanLevel g
  /\ fanControllerTable (fst (RunLoop fails g)) = fanControllerTable g.
Proof.
  induction fails as [|inp rest IH]; intros g Hall; [repeat split|].
  inversion Hall as [|? ? Hnone Hrest]; subst.
  simpl RunLoop. rewrite LoopIteration_after_probe.
  unfold ControlTick. rewrite Hnone.
  specialize (IH (after_probe g) Hrest).
  destruct (RunLoop rest (after_probe g)) as [g2 tr2]. exact IH.
Qed.

(** X14: the loop decides the device write from the emergency flag the
    scheduler left on the previous good reading.  After a reading at or
    above 80 degrees, and across any number of failed sensor reads, the
    next good reading is written to the device, exactly once, however
    little the duty cycle has changed. *)
Theorem emergency_reading_forces_next_write
    (g : Globals) (t1 t2 : Q) (ok1 ok2 : bool) (fails : list TickInput) :
  EMERGENCY_TEMP_THRESHOLD <= t1 ->
  Forall (fun inp => sensor inp = None) fails ->
  let g1 := fst (LoopIteration (mkTick (Some t1) ok1) g) in
  let g2 := fst (RunLoop fails g1) in
  device_writes (snd (LoopIteration (mkTick (Some t2) ok2) g2))
  = [EvSetSpeed (CalculateFanLevel (fanControllerTable g) t2)].
Proof.
  intros Hhot Hfails. cbv zeta.
  destruct (LoopIteration_good_state t1 ok1 g) as (_ & _ & He & Ht & _).
  destruct (failed_ticks_keep_flags fails
              (fst (LoopIteration (mkTick (Some t1) ok1) g)) Hfails)
    as (He2 & _ & Ht2).
  apply fge_iff in Hhot. rewrite Hhot in He.
  rewrite LoopIteration_after_probe, ControlTick_device_writes.
  change (fanControllerTable (after_probe ?x)) with (fanControllerTable x).
  rewrite Ht2, Ht. unfold shouldUpdateFan.
  change (thermalEmergency (after_probe ?x)) with (thermalEmergency x).
  rewrite He2, He. reflexivity.
Qed.

Lemma emergency_reading_forces_next_write_witness :
  device_writes
    (snd (LoopIteration (mkTick (Some 85) true)
            (fst (RunLoop [mkTick None true; mkTick None false]
                    (fst (LoopIteration (mkTick (Some 85) false) warm_state))))))
  = [EvSetSpeed (CalculateFanLevel (Some defaultTable) 85)].
Proof.
  apply (emergency_reading_forces_next_write warm_state 85 85 false true
           [mkTick None true; mkTick None false]).
  - vm_compute. discriminate.
  - repeat constructor.
Defined.

(** X15: the output threshold compares the new duty cycle with the one
    computed on the previous iteration, not with the one last written.
    So while the emergency flag is clear, a run of readings below 80
    degrees whose duty cycle moves by at most 0.02 per iteration never
    writes the device, however far the duty cycle drifts in total; the
    drift ends up in [lastFanLevel]. *)
Theorem small_steps_never_reach_device (ts : list Q) : forall g : Globals,
  thermalEmergency g = false ->
  small_steps (fanControllerTable g) (lastFanLevel g) ts = true ->
  device_writes (snd (RunLoop (good_ticks ts) g)) = []
  /\ lastFanLevel (fst (RunLoop (good_ticks ts) g))
     = match rev ts with
       | [] => lastFanLevel g
       | t :: _ => CalculateFanLevel (fanControllerTable g) t
       end.
Proof.
  induction ts as [|t rest IH]; intros g He Hsteps; [split; reflexivity|].
  simpl in Hsteps.
  apply andb_true_iff in Hsteps. destruct Hsteps as [Hsteps Hrest].
  apply andb_true_iff in Hsteps. destruct Hsteps as [Hcool Hsmall].
  apply flt_iff in Hcool. apply fge_false_iff in Hcool.
  simpl good_ticks. simpl RunLoop.
  destruct (LoopIteration_good_state t true g) as (_ & Hf & He1 & Ht1 & _).
  rewrite Hcool in He1.
  assert (Hw : device_writes (snd (LoopIteration (mkTick (Some t) true) g)) = []).
  { rewrite LoopIteration_after_probe, ControlTick_device_writes.
    change (fanControllerTable (after_probe g)) with (fanControllerTable g).
    unfold shouldUpdateFan.
    change (thermalEmergency (after_probe g)) with (thermalEmergency g).
    change (lastFanLevel (after_probe g)) with (lastFanLevel g).
    change (systemInSleepMode (after_probe g)) with false.
    rewrite He.
    assert (E : fgt (Qabs (CalculateFanLevel (fanControllerTable g) t
                           - lastFanLevel g)) FAN_UPDATE_THRESHOLD = false).
    { unfold fgt. apply flt_false_iff. apply fle_iff. exact Hsmall. }
    rewrite E. reflexivity. }
  destruct (LoopIteration (mkTick (Some t) true) g) as [g1 tr1].
  cbn [fst snd] in *.
  rewrite <- Hf, <- Ht1 in Hrest.
  specialize (IH g1 He1 Hrest). fold (good_ticks rest).
  destruct (RunLoop (good_ticks rest) g1) as [g2 tr2]. cbn [fst snd] in *.
  destruct IH as [IHw IHl]. split.
  - rewrite device_writes_app, Hw, IHw. reflexivity.
  - rewrite IHl. simpl rev.
    destruct (rev rest) as [|t' r'] eqn:Er; simpl.
    + exact Hf.
    + rewrite Ht1. reflexivity.
Qed.

Lemma small_steps_never_reach_device_witness :
  device_writes (snd (RunLoop (good_ticks slow_climb) reset_state)) = []
  /\ lastFanLevel (fst (RunLoop (good_ticks slow_climb) reset_state))
     = CalculateFanLevel (Some defaultTable) 20.
Proof.
  apply (small_steps_never_reach_device slow_climb reset_state).
  - reflexivity.
  - vm_compute. reflexivity.
Defined.

(** ** CreateDir on a path: which directories it makes *)

Lemma StronglySorted_snoc (l : list nat) (m : nat) :
  StronglySorted lt l ->
  Forall (fun n => (n < m)%nat) l ->
  StronglySorted lt (l ++ [m]).
Proof.
  induction 1 as [|a l Hs IH Ha]; intros Hall.
  - simpl. constructor; constructor.
  - inversion Hall as [|? ? Ham Hlm]; subst. simpl. constructor.
    + apply IH. exact Hlm.
    + apply Forall_app. split; [exact Ha | constructor; [exact Ham | constructor]].
Qed.

Lemma nth_error_middle (pre : Path) (c : ascii) (rest : Path) :
  nth_error (pre ++ c :: rest) (List.length pre) = Some c.
Proof. induction pre as [|a pre IH]; [reflexivity | exact IH]. Qed.

Section CreateDirCalls.
Variable FS : Type.
Variable access : FS -> Path -> bool.
Variable mkdir : FS -> Path -> FS.
Variable PATH_MAX : nat.

Local Abbreviation scan := (CreateDir_scan FS access mkdir PATH_MAX).
Local Abbreviation create := (CreateDirPath FS access mkdir PATH_MAX).

Lemma mkdir_if_missing_calls p st :
  snd (mkdir_if_missing FS access mkdir p st) = snd st
  \/ snd (mkdir_if_missing FS access mkdir p st) = snd st ++ [p].
Proof.
  unfold mkdir_if_missing. destruct (access (fst st) p); [left | right]; reflexivity.
Qed.

(** The calls of the loop from offset [length pre] on: cuts in front of
    a '/', at growing offsets. *)
Lemma scan_calls dir pos : forall pre st,
  dir = pre ++ pos ->
  exists ns,
    snd (scan dir (List.length pre) pos st)
      = snd st ++ map (fun n => firstn n dir) ns
    /\ StronglySorted lt ns
    /\ Forall (fun n => (List.length pre <= n < List.length dir)%nat
                        /\ (0 < n)%nat /\ (n < PATH_MAX)%nat
                        /\ nth_error dir n = Some slash) ns.
Proof.
  induction pos as [|c rest IH]; intros pre st Hdir.
  - exists []. simpl. rewrite app_nil_r. repeat split; constructor.
  - assert (Hdir' : dir = (pre ++ [c]) ++ rest)
      by (rewrite <- app_assoc; exact Hdir).
    assert (Hlen' : List.length (pre ++ [c]) = S (List.length pre))
      by (rewrite length_app; simpl; lia).
    assert (Weaken : forall ns,
               Forall (fun n => (List.length (pre ++ [c]) <= n < List.length dir)%nat
                                /\ (0 < n)%nat /\ (n < PATH_MAX)%nat
                                /\ nth_error dir n = Some slash) ns ->
               Forall (fun n => (List.length pre <= n < List.length dir)%nat
                                /\ (0 < n)%nat /\ (n < PATH_MAX)%nat
                                /\ nth_error dir n = Some slash) ns).
    { intros ns. apply Forall_impl. intros n (Hr & Hrest). split; [lia | exact Hrest]. }
    simpl scan. rewrite <- Hlen'.
    destruct (Ascii.eqb c slash) eqn:Ec.
    + apply Ascii.eqb_eq in Ec. subst c. cbv zeta.
      destruct ((0 <? List.length pre)%nat && (List.length pre <? PATH_MAX - 1)%nat)
        eqn:Eg.
      * apply andb_true_iff in Eg. destruct Eg as [Eg1 Eg2].
        apply Nat.ltb_lt in Eg1. apply Nat.ltb_lt in Eg2.
        destruct (mkdir_if_missing_calls (firstn (List.length pre) dir) st)
          as [Hsame | Hmore].
        -- destruct (IH (pre ++ [slash])
                        (mkdir_if_missing FS access mkdir
                           (firstn (List.length pre) dir) st) Hdir')
             as (ns & Hcalls & Hsorted & Hall).
           exists ns. rewrite Hcalls, Hsame.
           split; [reflexivity|]. split; [exact Hsorted | apply Weaken, Hall].
        -- destruct (IH (pre ++ [slash])
                        (mkdir_if_missing FS access mkdir
                           (firstn (List.length pre) dir) st) Hdir')
             as (ns & Hcalls & Hsorted & Hall).
           exists (List.length pre :: ns). rewrite Hcalls, Hmore.
           split; [simpl; rewrite <- app_assoc; reflexivity|]. split.
           ++ constructor; [exact Hsorted|].
              revert Hall. apply Forall_impl. intros n (Hr & _). lia.
           ++ constructor; [|apply Weaken, Hall].
              split; [|split; [exact Eg1|split; [lia|]]].
              ** rewrite Hdir, length_app. simpl. lia.
              ** rewrite Hdir. apply nth_error_middle.
      * destruct (IH (pre ++ [slash]) st Hdir') as (ns & Hcalls & Hsorted & Hall).
        exists ns. split; [exact Hcalls|]. split; [exact Hsorted | apply Weaken, Hall].
    + destruct (IH (pre ++ [c]) st Hdir') as (ns & Hcalls & Hsorted & Hall).
      exists ns. split; [exact Hcalls|]. split; [exact Hsorted | apply Weaken, Hall].
Qed.

(** X16: the directories [CreateDir] makes are cuts of its argument: the
    part in front of a '/' that is not its first character, or the whole
    argument, each shorter than [PATH_MAX].  It makes them by growing
    length, so a parent comes before its children, and none twice. *)
Theorem CreateDir_makes_ancestors_in_order (fs : FS) (dir : Path) :
  exists ns : list nat,
    snd (create fs (Some dir)) = map (fun n => firstn n dir) ns
    /\ StronglySorted lt ns
    /\ Forall (fun n => is_cut dir n /\ (n < PATH_MAX)%nat) ns.
Proof.
  destruct (scan_calls dir dir [] (fs, []) eq_refl)
    as (ns & Hcalls & Hsorted & Hall).
  simpl in Hcalls. unfold CreateDirPath. cbv zeta.
  assert (Hcuts : Forall (fun n => is_cut dir n /\ (n < PATH_MAX)%nat) ns).
  { revert Hall. apply Forall_impl. intros n (_ & Hpos & Hmax & Hnth).
    split; [right; split; assumption | exact Hmax]. }
  destruct (List.length dir <? PATH_MAX)%nat eqn:El.
  - apply Nat.ltb_lt in El.
    destruct (mkdir_if_missing_calls dir (scan dir 0%nat dir (fs, [])))
      as [Hsame | Hmore].
    + exists ns. rewrite Hsame, Hcalls. split; [reflexivity|].
      split; assumption.
    + exists (ns ++ [List.length dir]). rewrite Hmore, Hcalls, map_app.
      simpl. rewrite firstn_all. split; [reflexivity|]. split.
      * apply StronglySorted_snoc; [exact Hsorted|].
        revert Hall. apply Forall_impl. intros n (Hr & _). lia.
      * apply Forall_app. split; [exact Hcuts|].
        constructor; [|constructor]. split; [left; reflexivity | exact El].
  - exists ns. rewrite Hcalls. split; [reflexivity|]. split; assumption.
Qed.

Lemma scan_existing fs dir pos : forall pre,
  dir = pre ++ pos ->
  (forall n, is_cut dir n -> access fs (firstn n dir) = true) ->
  scan dir (List.length pre) pos (fs, []) = (fs, []).
Proof.
  induction pos as [|c rest IH]; intros pre Hdir Hex; [reflexivity|].
  assert (Hdir' : dir = (pre ++ [c]) ++ rest)
    by (rewrite <- app_assoc; exact Hdir).
  assert (Hlen' : List.length (pre ++ [c]) = S (List.length pre))
    by (rewrite length_app; simpl; lia).
  simpl scan. rewrite <- Hlen'.
  destruct (Ascii.eqb c slash) eqn:Ec; [|apply IH; assumption].
  apply Ascii.eqb_eq in Ec. subst c. cbv zeta.
  destruct ((0 <? List.length pre)%nat && _) eqn:Eg; [|apply IH; assumption].
  apply andb_true_iff in Eg. destruct Eg as [Eg1 _].
  apply Nat.ltb_lt in Eg1.
  unfold mkdir_if_missing. cbn [fst].
  rewrite (Hex (List.length pre)); [apply IH; assumption|].
  right. split; [exact Eg1|]. rewrite Hdir. apply nth_error_middle.
Qed.

(** X17: when the argument and every directory on the way to it are
    there already, [CreateDir] makes no [mkdir] call and leaves the file
    system as it is. *)
Theorem CreateDir_existing_path_untouched (fs : FS) (dir : Path) :
  (forall n, is_cut dir n -> access fs (firstn n dir) = true) ->
  create fs (Some dir) = (fs, []).
Proof.
  intros Hex. unfold CreateDirPath. cbv zeta.
  pose proof (scan_existing fs dir dir [] eq_refl Hex) as Hs.
  cbn [List.length] in Hs. rewrite Hs.
  destruct (_ <? _)%nat; [|reflexivity].
  unfold mkdir_if_missing. cbn [fst].
  pose proof (Hex (List.length dir) (or_introl eq_refl)) as H.
  rewrite firstn_all in H. rewrite H. reflexivity.
Qed.
End CreateDirCalls.

Lemma CreateDir_existing_path_untouched_witness :
  CreateDirPath unit full_access (fun fs _ => fs) 4096 tt (Some sample_path)
  = (tt, []).
Proof.
  apply (CreateDir_existing_path_untouched unit full_access (fun fs _ => fs)
           4096 tt sample_path).
  intros n _. reflexivity.
Defined.

(** On an empty file system the sample path gets its two ancestors and
    then itself. *)
Example CreateDir_sample_run :
  snd (CreateDirPath (list Path) listed_access listed_mkdir 4096 []
         (Some sample_path))
  = map list_ascii_of_string
        ["sdmc:"; "sdmc:/config"; "sdmc:/config/fancontrol"].
Proof. vm_compute. reflexivity. Qed.

(** ** A session does not depend on the one before *)

Lemma CalculateAdaptiveSleepTime_checkCounter n g t f :
  CalculateAdaptiveSleepTime (set_checkCounter n g) t f
  = (set_checkCounter n (fst (CalculateAdaptiveSleepTime g t f)),
     snd (CalculateAdaptiveSleepTime g t f)).
Proof.
  unfold CalculateAdaptiveSleepTime.
  destruct (fge t CRITICAL_TEMP_THRESHOLD); [reflexivity|].
  destruct (fge t EMERGENCY_TEMP_THRESHOLD); [reflexivity|].
  cbn [systemInSleepMode set_thermalEmergency set_checkCounter].
  destruct (systemInSleepMode g); [reflexivity|].
  cbv zeta.
  change (reading_stable (set_thermalEmergency false (set_checkCounter n g)) t f)
    with (reading_stable (set_thermalEmergency false g) t f).
  change (tempChange_of (set_thermalEmergency false (set_checkCounter n g)) t)
    with (tempChange_of (set_thermalEmergency false g) t).
  destruct (reading_stable (set_thermalEmergency false g) t f);
    cbn [stableReadings set_stableReadings set_thermalEmergency set_checkCounter];
    destruct (STABLE_READINGS_FOR_SLOWDOWN <=? _)%Z; try reflexivity;
    destruct (flt _ _); reflexivity.
Qed.

Lemma ControlTick_checkCounter n inp g :
  ControlTick inp (set_checkCounter n g)
  = (set_checkCounter n (fst (ControlTick inp g)), snd (ControlTick inp g)).
Proof.
  unfold ControlTick. destruct (sensor inp) as [t|]; [|reflexivity].
  change (fanControllerTable (set_checkCounter n g)) with (fanControllerTable g).
  change (shouldUpdateFan (set_checkCounter n g)) with (shouldUpdateFan g).
  change (systemInSleepMode (set_checkCounter n g)) with (systemInSleepMode g).
  rewrite CalculateAdaptiveSleepTime_checkCounter.
  destruct (CalculateAdaptiveSleepTime g t _) as [g1 iv]. reflexivity.
Qed.

Lemma RunLoop_checkCounter inps : forall n g,
  snd (RunLoop inps (set_checkCounter n g)) = snd (RunLoop inps g).
Proof.
  induction inps as [|inp rest IH]; intros n g; [reflexivity|].
  simpl RunLoop. rewrite !LoopIteration_after_probe.
  change (after_probe (set_checkCounter n g))
    with (set_checkCounter (u32 (n + 1)) (set_systemInSleepMode false g)).
  change (after_probe g)
    with (set_checkCounter (u32 (checkCounter g + 1))
            (set_systemInSleepMode false g)).
  rewrite !ControlTick_checkCounter.
  pose proof (IH (u32 (n + 1))
                (fst (ControlTick inp (set_systemInSleepMode false g)))) as H1.
  pose proof (IH (u32 (checkCounter g + 1))
                (fst (ControlTick inp (set_systemInSleepMode false g)))) as H2.
  destruct (RunLoop rest (set_checkCounter (u32 (n + 1)) _)) as [ga tra].
  destruct (RunLoop rest (set_checkCounter (u32 (checkCounter g + 1)) _))
    as [gb trb].
  cbn [snd] in *. rewrite H1, H2. reflexivity.
Qed.

(** X18: [InitFanController] resets everything the loop's behaviour
    depends on.  Whatever state an earlier session left behind, after
    [InitFanController(table)] the loop makes the same calls (device
    writes, sleeps, log lines) on the same sensor and device answers; with
    a NULL table the state is left as it is. *)
Theorem session_forgets_previous_state
    (table : Table) (g1 g2 : Globals) (inps : list TickInput) :
  snd (RunLoop inps (InitFanController (Some table) g1))
  = snd (RunLoop inps (InitFanController (Some table) g2))
  /\ InitFanController None g1 = g1.
Proof.
  split; [|reflexivity].
  change (InitFanController (Some table) g1)
    with (set_checkCounter (checkCounter g1) (InitFanController_state table)).
  change (InitFanController (Some table) g2)
    with (set_checkCounter (checkCounter g2) (InitFanController_state table)).
  rewrite !RunLoop_checkCounter. reflexivity.
Qed.
